(** * The todo store of [index.js]: five tools over one PostgreSQL table

    [index.js] creates the table [todos (id SERIAL PRIMARY KEY, content TEXT
    NOT NULL, status TEXT DEFAULT 'active')] and exposes five tools, each of
    which runs one SQL statement through [db.query] and renders the result as
    text.  This file embeds

    - the pieces of JavaScript the tools use ([parseInt], template strings,
      number-to-string conversion),
    - the pieces of PostgreSQL the statements use ([LIKE]/[ILIKE] patterns,
      the [integer] type of [id], the sequence behind [SERIAL],
      [ORDER BY id DESC]),
    - the table and the five tools,
    - the chat loop around an agent that is given the tools,

    and then states the properties of the store over them.

    Scope of the model.  A character is an [ascii], a code 0..255 read as
    the Unicode character of that code; case folding is the one of these
    characters.  The database connection is taken to be up: the only
    failures modelled are the ones the statements themselves can raise. *)

From Stdlib Require Import ZArith List Bool Ascii String Lia.
From Stdlib Require Import Permutation Sorted DecimalString.
From Stdlib Require DecimalPos.
Import ListNotations.

Open Scope string_scope.
Open Scope Z_scope.

(** ** Characters *)

Definition code (c : ascii) : Z := Z.of_N (N_of_ascii c).

Definition between (lo hi : Z) (c : ascii) : bool :=
  (lo <=? code c) && (code c <=? hi).

(** * JavaScript *)

Module Js.

(** [StrWhiteSpaceChar] restricted to codes below 256: TAB, LF, VT, FF, CR,
    SP and NBSP. *)
Definition isWhiteSpace (c : ascii) : bool :=
  between 9 13 c || (code c =? 32) || (code c =? 160).

Fixpoint trimStart (s : string) : string :=
  match s with
  | String c s' => if isWhiteSpace c then trimStart s' else s
  | EmptyString => EmptyString
  end.

(** The value of a character as a digit: 0-9, then a-z and A-Z for 10..35. *)
Definition digitValue (c : ascii) : option Z :=
  if between 48 57 c then Some (code c - 48)
  else if between 97 122 c then Some (code c - 87)
  else if between 65 90 c then Some (code c - 55)
  else None.

Definition radixDigit (R : Z) (c : ascii) : option Z :=
  match digitValue c with
  | Some d => if d <? R then Some d else None
  | None => None
  end.

(** The longest prefix of [s] made of radix-[R] digits, as digit values. *)
Fixpoint digitsPrefix (R : Z) (s : string) : list Z :=
  match s with
  | String c s' =>
      match radixDigit R c with
      | Some d => d :: digitsPrefix R s'
      | None => []
      end
  | EmptyString => []
  end.

Definition mathInt (R : Z) (ds : list Z) : Z :=
  fold_left (fun acc d => acc * R + d) ds 0.

Definition stripSign (s : string) : Z * string :=
  match s with
  | String c s' =>
      if (c =? "-")%char then (-1, s')
      else if (c =? "+")%char then (1, s')
      else (1, s)
  | EmptyString => (1, s)
  end.

Definition stripPrefix (s : string) : Z * string :=
  match s with
  | String c0 (String c1 s') =>
      if (c0 =? "0")%char && ((c1 =? "x")%char || (c1 =? "X")%char)
      then (16, s') else (10, s)
  | _ => (10, s)
  end.

(** [parseInt(string)] with the radix left out.  [None] is [NaN].  The
    result is the exact integer the digits write.  JavaScript returns the
    double nearest to it, which is that integer up to 2^53 and may differ
    from it above: what is stated below of the value itself is stated up to
    2^53 only.  For the lookup by id the difference is of no effect, since
    every value of 2^31 or more is refused by the database whatever it was
    rounded to (see [Pg.int4in]).  [-0] is 0: both print as [0]. *)
Definition parseInt (inputString : string) : option Z :=
  let '(sign, S1) := stripSign (trimStart inputString) in
  let '(R, S2) := stripPrefix S1 in
  match digitsPrefix R S2 with
  | [] => None
  | ds => Some (sign * mathInt R ds)
  end.

(** [`${n}`] for an integer [n]. *)
Definition toString (n : Z) : string := NilZero.string_of_int (Z.to_int n).

(** [xs.join(sep)]. *)
Fixpoint join (sep : string) (xs : list string) : string :=
  match xs with
  | [] => ""
  | [x] => x
  | x :: xs' => x ++ sep ++ join sep xs'
  end.

(** [s.toLowerCase()] on codes below 256: the ASCII capitals and the
    Latin-1 capitals (all of 192..222 but the multiplication sign) move up
    by 32. *)
Definition toLowerCase_char (c : ascii) : ascii :=
  if between 65 90 c || between 192 214 c || between 216 222 c
  then ascii_of_N (N_of_ascii c + 32) else c.

Fixpoint toLowerCase (s : string) : string :=
  match s with
  | String c s' => String (toLowerCase_char c) (toLowerCase s')
  | EmptyString => EmptyString
  end.

End Js.

(** * PostgreSQL *)

Module Pg.

Inductive Error : Set :=
| sequence_exhausted    (* nextval: reached maximum value of sequence *)
| integer_rejected      (* value is out of range for type integer, or, for a
                           number that prints with an exponent, invalid
                           input syntax for type integer *)
| like_escape_at_end    (* LIKE pattern must not end with escape character *)
| unique_violation      (* duplicate key value violates unique constraint *)
| invalid_byte_sequence. (* invalid byte sequence for encoding: 0x00 *)

Inductive Res (A : Type) : Type :=
| Ok (a : A)
| Fail (e : Error).
Arguments Ok {A} a.
Arguments Fail {A} e.

Definition bind {A B : Type} (m : Res A) (k : A -> Res B) : Res B :=
  match m with
  | Ok a => k a
  | Fail e => Fail e
  end.

(** *** The [integer] type *)

Definition int4_max : Z := 2147483647.
Definition int4_min : Z := -2147483648.

(** A JavaScript number reaches the server as text and is read as an
    [integer], the type of the [id] it is compared with.  A number below
    -2^31 or above 2^31-1 is refused, in whichever form it prints. *)
Definition int4in (n : Z) : Res Z :=
  if (int4_min <=? n) && (n <=? int4_max) then Ok n
  else Fail integer_rejected.

(** *** The [text] type *)

(** A [text] holds no character of code 0. *)
Fixpoint has_nul (s : string) : bool :=
  match s with
  | String c s' => (code c =? 0) || has_nul s'
  | EmptyString => false
  end.

(** A JavaScript string reaches the server as a parameter and is read as a
    [text] before the statement runs; one that holds the character of code 0
    is refused. *)
Definition textin (s : string) : Res string :=
  if has_nul s then Fail invalid_byte_sequence else Ok s.

(** *** LIKE patterns *)

Inductive LikeTok : Set :=
| Lit (c : ascii)   (* this character *)
| AnyOne            (* _ : any single character *)
| AnySeq.           (* % : any sequence of characters *)

Definition add_tok (t : LikeTok) (r : option (list LikeTok)) :=
  option_map (cons t) r.

(** Reading a pattern: a backslash takes the next character literally, and a
    pattern may not end on one. *)
Fixpoint like_tokens (p : string) : option (list LikeTok) :=
  match p with
  | EmptyString => Some []
  | String c rest =>
      if (c =? "\")%char then
        match rest with
        | EmptyString => None
        | String c' rest' => add_tok (Lit c') (like_tokens rest')
        end
      else if (c =? "%")%char then add_tok AnySeq (like_tokens rest)
      else if (c =? "_")%char then add_tok AnyOne (like_tokens rest)
      else add_tok (Lit c) (like_tokens rest)
  end.

Fixpoint like_match (ts : list LikeTok) (s : string) {struct ts} : bool :=
  match ts with
  | [] => match s with EmptyString => true | String _ _ => false end
  | Lit c :: ts' =>
      match s with
      | String d s' => (c =? d)%char && like_match ts' s'
      | EmptyString => false
      end
  | AnyOne :: ts' =>
      match s with
      | String _ s' => like_match ts' s'
      | EmptyString => false
      end
  | AnySeq :: ts' =>
      (fix from (s : string) : bool :=
         like_match ts' s
         || match s with
            | String _ s' => from s'
            | EmptyString => false
            end) s
  end.

(** *** Case folding *)

(** The capitals among the characters of code below 256 are A..Z and the
    accented capitals 192..222, the multiplication sign 215 apart; the small
    letter of each is 32 further. *)
Definition lower_char (c : ascii) : ascii :=
  if between 65 90 c || between 192 214 c || between 216 222 c
  then ascii_of_N (N_of_ascii c + 32) else c.

Fixpoint lower (s : string) : string :=
  match s with
  | String c s' => String (lower_char c) (lower s')
  | EmptyString => EmptyString
  end.

(** [s ILIKE pat]: both sides are folded to lower case, then matched as
    [LIKE]. *)
Definition ilike (s pat : string) : Res bool :=
  match like_tokens (lower pat) with
  | Some ts => Ok (like_match ts (lower s))
  | None => Fail like_escape_at_end
  end.

End Pg.

(** * The table and the tools *)

Module Store.
Import Pg.

(** ** The table [todos] *)

(** [status] is a TEXT column; the program writes only the default
    ['active'] and the literal ['deleted'] into it. *)
Inductive Status : Set := active | deleted.

Definition status_eqb (a b : Status) : bool :=
  match a, b with
  | active, active | deleted, deleted => true
  | _, _ => false
  end.

Definition status_text (s : Status) : string :=
  match s with
  | active => "active"
  | deleted => "deleted"
  end.

Record Todo : Set := mkTodo { id : Z; content : string; status : Status }.

(** The database: the rows of [todos], listed in the order they were
    inserted, and the next value of the sequence [todos_id_seq] that
    [SERIAL] attaches to [id].  The list is the table as a relation together
    with the rank of insertion; it is not the physical order of the rows,
    which an UPDATE changes.  A statement without ORDER BY returns its rows
    in an order PostgreSQL does not promise; here it is the order of this
    list, and the rows of such a result are to be read up to their order. *)
Record Db : Set := mkDb { todos : list Todo; todos_id_seq : Z }.

(** After [CREATE TABLE IF NOT EXISTS] on a fresh database. *)
Definition empty_db : Db := mkDb [] 1.

(** What [db.query] resolves to. *)
Record Result : Set := mkResult { rows : list Todo; rowCount : nat }.

(** A statement changes the database and resolves, or rejects with an error
    and leaves whatever it had already changed (a sequence does not roll
    back). *)
Definition Query (A : Type) : Type := Db -> Db * Res A.

Definition set_status (s : Status) (r : Todo) : Todo :=
  mkTodo (id r) (content r) s.

(** ** SQL evaluation *)

(** [SELECT * FROM todos WHERE cond]: the condition is evaluated row by row
    and the first error aborts the statement. *)
Fixpoint select_where (cond : Todo -> Res bool) (l : list Todo)
  : Res (list Todo) :=
  match l with
  | [] => Ok []
  | r :: l' =>
      bind (cond r) (fun b =>
      bind (select_where cond l') (fun rs =>
      Ok (if b then r :: rs else rs)))
  end.

(** [UPDATE todos SET status = s WHERE cond RETURNING *]: the table after the
    update and the updated rows. *)
Fixpoint update_where (cond : Todo -> Res bool) (s : Status) (l : list Todo)
  : Res (list Todo * list Todo) :=
  match l with
  | [] => Ok ([], [])
  | r :: l' =>
      bind (cond r) (fun b =>
      bind (update_where cond s l') (fun '(tbl, upd) =>
      Ok (if b then (set_status s r :: tbl, set_status s r :: upd)
          else (r :: tbl, upd))))
  end.

(** [ORDER BY id DESC], by insertion. *)
Fixpoint insert_desc (r : Todo) (l : list Todo) : list Todo :=
  match l with
  | [] => [r]
  | x :: l' => if id x <=? id r then r :: l else x :: insert_desc r l'
  end.

Definition order_by_id_desc (l : list Todo) : list Todo :=
  fold_right insert_desc [] l.

Definition nextval (db : Db) : Db * Res Z :=
  let v := todos_id_seq db in
  if v <=? int4_max then (mkDb (todos db) (v + 1), Ok v)
  else (db, Fail sequence_exhausted).

(** ** The five statements, as the tools issue them *)

(** [`%${keyword}%`] *)
Definition pattern (keyword : string) : string := "%" ++ keyword ++ "%".

(** [c ILIKE $1] with [$1 = `%${keyword}%`]: the parameter is read as a
    [text], then matched. *)
Definition keyword_ilike (keyword c : string) : Res bool :=
  bind (textin (pattern keyword)) (fun pat => ilike c pat).

(** [content ILIKE $1] on a row. *)
Definition content_ilike (keyword : string) (r : Todo) : Res bool :=
  keyword_ilike keyword (content r).

Definition is_active (r : Todo) : bool := status_eqb (status r) active.
Definition is_deleted (r : Todo) : bool := status_eqb (status r) deleted.

(** [INSERT INTO todos (content) VALUES ($1)]: the parameter is read as a
    [text] first; then [id] takes the next value of the sequence, [status]
    its default; the primary key refuses an [id] already in the table. *)
Definition addTodo_res (content : string) : Query Result :=
  fun db =>
    match textin content with
    | Fail e => (db, Fail e)
    | Ok content =>
        match nextval db with
        | (db1, Ok v) =>
            if existsb (fun r => id r =? v) (todos db1)
            then (db1, Fail unique_violation)
            else (mkDb (todos db1 ++ [mkTodo v content active])
                       (todos_id_seq db1),
                  Ok (mkResult [] 1))
        | (db1, Fail e) => (db1, Fail e)
        end
    end.

(** [UPDATE todos SET status='deleted' WHERE content ILIKE $1 RETURNING *] *)
Definition deleteTodo_res (keyword : string) : Query Result :=
  fun db =>
    match textin (pattern keyword) with
    | Fail e => (db, Fail e)
    | Ok _ =>
        match update_where (content_ilike keyword) deleted (todos db) with
        | Ok (tbl, upd) =>
            (mkDb tbl (todos_id_seq db), Ok (mkResult upd (List.length upd)))
        | Fail e => (db, Fail e)
        end
    end.

Definition select (cond : Todo -> Res bool) : Query Result :=
  fun db =>
    match select_where cond (todos db) with
    | Ok rs => (db, Ok (mkResult rs (List.length rs)))
    | Fail e => (db, Fail e)
    end.

(** [SELECT * FROM todos WHERE id=$1] with [$1 = idNum] *)
Definition select_by_id (idNum : Z) : Query Result :=
  fun db =>
    match int4in idNum with
    | Ok n => select (fun r => Ok (id r =? n)) db
    | Fail e => (db, Fail e)
    end.

(** [SELECT * FROM todos WHERE content ILIKE $1 AND status='active'] *)
Definition select_active_like (keyword : string) : Query Result :=
  fun db =>
    match textin (pattern keyword) with
    | Fail e => (db, Fail e)
    | Ok _ =>
        select (fun r => bind (content_ilike keyword r)
                              (fun b => Ok (b && is_active r))) db
    end.

Definition searchTodo_res (keywordOrId : string) : Query Result :=
  match Js.parseInt keywordOrId with
  | Some idNum => select_by_id idNum
  | None => select_active_like keywordOrId
  end.

(** [UPDATE todos SET status='active' WHERE content ILIKE $1 AND
    status='deleted' RETURNING *] *)
Definition restoreTodo_res (keyword : string) : Query Result :=
  fun db =>
    match textin (pattern keyword) with
    | Fail e => (db, Fail e)
    | Ok _ =>
        match update_where
                (fun r => bind (content_ilike keyword r)
                               (fun b => Ok (b && is_deleted r)))
                active (todos db) with
        | Ok (tbl, upd) =>
            (mkDb tbl (todos_id_seq db), Ok (mkResult upd (List.length upd)))
        | Fail e => (db, Fail e)
        end
    end.

(** [SELECT * FROM todos ORDER BY id DESC], or the same with
    [WHERE status='active']. *)
Definition readTodo_res (showAll : bool) : Query Result :=
  fun db =>
    let rs := if showAll then order_by_id_desc (todos db)
              else order_by_id_desc (filter is_active (todos db)) in
    (db, Ok (mkResult rs (List.length rs))).

(** ** The tools: the statement, then the text handed to the agent *)

Definition reply (q : Query Result) (text : Result -> string) : Query string :=
  fun db =>
    match q db with
    | (db', Ok res) => (db', Ok (text res))
    | (db', Fail e) => (db', Fail e)
    end.

(** [`#${r.id} - ${r.content} [${r.status}]`] *)
Definition line (r : Todo) : string :=
  "#" ++ Js.toString (id r) ++ " - " ++ content r
      ++ " [" ++ status_text (status r) ++ "]".

Definition listing (res : Result) : string :=
  if (0 <? List.length (rows res))%nat
  then Js.join (String (ascii_of_nat 10) "") (map line (rows res))
  else "No todos found.".

Definition count_text (n : nat) : string := Js.toString (Z.of_nat n).

Definition addTodo (content : string) : Query string :=
  reply (addTodo_res content)
        (fun _ => "Added: " ++ String (ascii_of_nat 34) content
                            ++ String (ascii_of_nat 34) "").

Definition deleteTodo (keyword : string) : Query string :=
  reply (deleteTodo_res keyword)
        (fun res => if (0 <? rowCount res)%nat
                    then "Deleted " ++ count_text (rowCount res) ++ " item(s)"
                    else "No matching todos found.").

Definition searchTodo (keywordOrId : string) : Query string :=
  reply (searchTodo_res keywordOrId) listing.

Definition restoreTodo (keyword : string) : Query string :=
  reply (restoreTodo_res keyword)
        (fun res => if (0 <? rowCount res)%nat
                    then "Restored " ++ count_text (rowCount res) ++ " item(s)"
                    else "No deleted todos matched.").

Definition readTodo (showAll : bool) : Query string :=
  reply (readTodo_res showAll) listing.

(** ** Sequences of tool calls *)

Inductive Call : Set :=
| add_todo (content : string)
| delete_todo (keyword : string)
| search_todo (keywordOrId : string)
| restore_todo (keyword : string)
| read_todo (showAll : bool).

Definition invoke (c : Call) : Query string :=
  match c with
  | add_todo content => addTodo content
  | delete_todo keyword => deleteTodo keyword
  | search_todo keywordOrId => searchTodo keywordOrId
  | restore_todo keyword => restoreTodo keyword
  | read_todo showAll => readTodo showAll
  end.

(** The database after a call, whether it resolved or threw. *)
Definition after (c : Call) (db : Db) : Db := fst (invoke c db).

Definition after_all (cs : list Call) (db : Db) : Db :=
  fold_left (fun d c => after c d) cs db.

(** The tables the program can produce, starting from the fresh one. *)
Inductive reachable : Db -> Prop :=
| reach_empty : reachable empty_db
| reach_call c db : reachable db -> reachable (after c db).

(** The primary key and the sequence: ids are pairwise distinct, positive and
    below the next value of the sequence. *)
Definition pk_ok (db : Db) : Prop :=
  NoDup (map id (todos db))
  /\ Forall (fun r => 1 <= id r < todos_id_seq db) (todos db)
  /\ 1 <= todos_id_seq db.

End Store.

(** * The vocabulary of the specification *)

Module Spec.
Import Pg Store.

(** [needle] occurs in [hay]. *)
Definition occurs_in (needle hay : string) : Prop :=
  exists pre post, hay = pre ++ needle ++ post.

Fixpoint starts_with (needle hay : string) : bool :=
  match needle, hay with
  | EmptyString, _ => true
  | String c n', String d h' => (c =? d)%char && starts_with n' h'
  | String _ _, EmptyString => false
  end.

Fixpoint substringb (needle hay : string) : bool :=
  starts_with needle hay
  || match hay with
     | String _ h' => substringb needle h'
     | EmptyString => false
     end.

(** Case, said without folding anything.  A capital is one of A..Z or of
    the accented capitals 192..222 (215, the multiplication sign, is none);
    the small letter of a capital has its code plus 32.  Two characters
    are the same up to case when they are equal or one is the small letter
    of the other. *)
Definition is_capital (c : ascii) : bool :=
  between 65 90 c || between 192 214 c || between 216 222 c.

Definition same_up_to_case (c d : ascii) : bool :=
  (c =? d)%char
  || (is_capital c && (code d =? code c + 32))
  || (is_capital d && (code c =? code d + 32)).

(** Two strings of one length whose characters agree up to case. *)
Fixpoint ci_eqb (a b : string) : bool :=
  match a, b with
  | EmptyString, EmptyString => true
  | String c a', String d b' => same_up_to_case c d && ci_eqb a' b'
  | _, _ => false
  end.

Fixpoint ci_starts_with (needle hay : string) : bool :=
  match needle, hay with
  | EmptyString, _ => true
  | String c n', String d h' => same_up_to_case c d && ci_starts_with n' h'
  | String _ _, EmptyString => false
  end.

(** "content case-insensitively contains keyword" *)
Fixpoint ci_contains (keyword content : string) : bool :=
  ci_starts_with keyword content
  || match content with
     | String _ c' => ci_contains keyword c'
     | EmptyString => false
     end.

(** The same as a proposition: a stretch of the content is the keyword up
    to case. *)
Definition ci_occurs (keyword content : string) : Prop :=
  exists pre mid post,
    content = pre ++ mid ++ post /\ ci_eqb mid keyword = true.

(** The content ends, up to case, with the suffix. *)
Definition ci_ends_with (suffix content : string) : Prop :=
  exists pre mid, content = pre ++ mid /\ ci_eqb mid suffix = true.

(** The characters [LIKE] gives a meaning to. *)
Definition is_meta (c : ascii) : bool :=
  (c =? "%")%char || (c =? "_")%char || (c =? "\")%char.

Fixpoint no_meta (s : string) : bool :=
  match s with
  | String c s' => negb (is_meta c) && no_meta s'
  | EmptyString => true
  end.

(** The tokens of a string without special characters: itself. *)
Fixpoint lits (s : string) : list LikeTok :=
  match s with
  | String c s' => Lit c :: lits s'
  | EmptyString => []
  end.

(** "purely numeric": one or more decimal digits and nothing else. *)
Fixpoint all_digits (s : string) : bool :=
  match s with
  | String c s' => between 48 57 c && all_digits s'
  | EmptyString => true
  end.

Definition purely_numeric (s : string) : bool :=
  match s with
  | EmptyString => false
  | String _ _ => all_digits s
  end.

Definition starts_with_digit (s : string) : bool :=
  match s with
  | String c _ => between 48 57 c
  | EmptyString => false
  end.

(** The number a string of decimal digits writes. *)
Fixpoint decimal_from (acc : Z) (s : string) : Z :=
  match s with
  | String c s' => decimal_from (10 * acc + (code c - 48)) s'
  | EmptyString => acc
  end.

Definition decimal (s : string) : Z := decimal_from 0 s.

(** What it is for a content to match a LIKE pattern up to case, said
    without reading the pattern into tokens: [%] stands for any run of
    characters, [_] for any one character, a backslash makes the character
    after it stand for itself, and any other character stands for
    itself. *)
Inductive Matches : string -> string -> Prop :=
| matches_end : Matches "" ""
| matches_percent p s1 s2 :
    Matches p s2 -> Matches (String "%" p) (s1 ++ s2)
| matches_underscore p c s :
    Matches p s -> Matches (String "_" p) (String c s)
| matches_escaped p c d s :
    same_up_to_case c d = true -> Matches p s ->
    Matches (String "\" (String c p)) (String d s)
| matches_char p c d s :
    is_meta c = false -> same_up_to_case c d = true -> Matches p s ->
    Matches (String c p) (String d s).

(** The match predicate of the three keyword statements, as a plain
    function: [content ILIKE `%${keyword}%`], and no match when the
    parameter is refused (see [keyword_ilike_total]). *)
Definition keyword_match (keyword content : string) : bool :=
  match keyword_ilike keyword content with
  | Ok b => b
  | Fail _ => false
  end.

(** A row matches the keyword. *)
Definition matching (keyword : string) (r : Todo) : bool :=
  keyword_match keyword (content r).

(** [content ILIKE $1 AND status='deleted'], and the same for ['active']. *)
Definition deleted_matching (k : string) (r : Todo) : bool :=
  matching k r && is_deleted r.

Definition active_matching (k : string) (r : Todo) : bool :=
  matching k r && is_active r.

(** [SET status = s] on the rows picked by [f]. *)
Definition mark (f : Todo -> bool) (s : Status) (r : Todo) : Todo :=
  if f r then set_status s r else r.

(** What a query resolved to, with nothing for a rejected one. *)
Definition rows_of (r : Db * Res Result) : list Todo :=
  match snd r with
  | Ok res => rows res
  | Fail _ => []
  end.

Definition count_of (r : Db * Res Result) : nat :=
  match snd r with
  | Ok res => rowCount res
  | Fail _ => 0%nat
  end.

Definition resolved {A : Type} (r : Db * Res A) : bool :=
  match snd r with
  | Ok _ => true
  | Fail _ => false
  end.

(** Same row, whatever its status. *)
Definition same_row (r r' : Todo) : Prop :=
  id r = id r' /\ content r = content r'.

(** [a] holds rows of [b] only, and [b] has a row that [a] lacks. *)
Definition strict_subset (a b : list Todo) : Prop :=
  incl a b /\ exists r, In r b /\ ~ In r a.

Definition desc_by_id (l : list Todo) : Prop :=
  StronglySorted (fun a b => id b <= id a) l.

(** ** The wording of the specification for Delete, Restore and Add *)

(** "Delete(k) transitions to deleted exactly those rows whose status is
    active and whose content case-insensitively contains k": row by row, the
    table after the call against the table before. *)
Definition delete_transitions (k : string) (db : Db) : Prop :=
  Forall2
    (fun r r' =>
       same_row r r'
       /\ status r' = if is_active r && ci_contains k (content r)
                      then deleted else status r)
    (todos db) (todos (fst (deleteTodo_res k db))).

(** "... and returns a count equal to the number of rows so transitioned". *)
Definition delete_count (k : string) (db : Db) : Prop :=
  count_of (deleteTodo_res k db)
  = List.length
      (filter (fun r => is_active r && ci_contains k (content r)) (todos db)).

Definition delete_spec (k : string) (db : Db) : Prop :=
  delete_transitions k db /\ delete_count k db.

(** "Restore(k) transitions to active exactly those rows whose status is
    deleted and whose content case-insensitively contains k; rows already
    active are never affected". *)
Definition restore_transitions (k : string) (db : Db) : Prop :=
  Forall2
    (fun r r' =>
       same_row r r'
       /\ status r' = if is_deleted r && ci_contains k (content r)
                      then active else status r)
    (todos db) (todos (fst (restoreTodo_res k db))).

(** "when every matching row is already active Restore(k) returns 0 and
    leaves the table unchanged". *)
Definition restore_noop (k : string) (db : Db) : Prop :=
  (forall r, In r (todos db) -> ci_contains k (content r) = true ->
             status r = active) ->
  count_of (restoreTodo_res k db) = 0%nat /\ fst (restoreTodo_res k db) = db.

Definition restore_spec (k : string) (db : Db) : Prop :=
  restore_transitions k db /\ restore_noop k db.

(** "the match predicate holds exactly when k is a case-insensitive
    substring of c". *)
Definition match_is_containment (k c : string) : Prop :=
  keyword_ilike k c = Ok (ci_contains k c).

(** "Search performs an exact lookup by id over rows of any status and
    returns at most one row". *)
Definition id_lookup (q : string) (db : Db) : Prop :=
  exists rs,
    searchTodo_res q db = (db, Ok (mkResult rs (List.length rs)))
    /\ (forall r, In r rs <-> In r (todos db) /\ id r = decimal q)
    /\ (List.length rs <= 1)%nat.

(** "every row returned by Search has status = active, and zero matches
    yield an empty result rather than an error". *)
Definition active_only_search (q : string) (db : Db) : Prop :=
  exists rs,
    searchTodo_res q db = (db, Ok (mkResult rs (List.length rs)))
    /\ Forall (fun r => status r = active) rs
    /\ ((forall r, In r (todos db) -> active_matching q r = false) ->
        rs = [] /\ searchTodo q db = (db, Ok "No todos found.")).

(** "no table state contains a row with empty content". *)
Definition nonempty_contents (db : Db) : Prop :=
  Forall (fun r => content r <> "") (todos db).

(** The two listings of one table. *)
Definition listing_all (db : Db) : list Todo := rows_of (readTodo_res true db).
Definition listing_active (db : Db) : list Todo :=
  rows_of (readTodo_res false db).

(** Tables used as examples: one todo, active and deleted. *)
Definition db_milk : Db := after (add_todo "buy milk") empty_db.
Definition db_milk_deleted : Db := after (delete_todo "milk") db_milk.

End Spec.

(** * The chat loop *)

Module Chat.
Import Pg Store.

(** The agent is not part of the program.  One run of [agent.invoke] is
    taken to be any finite interaction with the five tools, the only handles
    on the database the agent is given: it calls a tool, sees what the tool
    returned or threw, and goes on, until it ends with a reply or with an
    exception. *)
Inductive Agent : Type :=
| answer (text : string)
| throws
| use (c : Call) (next : Res string -> Agent).

(** [await agent.invoke(...)]: the database after the run, and the content of
    the last message, or nothing when the run threw. *)
Fixpoint invoke_agent (a : Agent) (db : Db) : Db * option string :=
  match a with
  | answer text => (db, Some text)
  | throws => (db, None)
  | use c next =>
      let '(db', r) := invoke c db in invoke_agent (next r) db'
  end.

(** What the loop prints. *)
Inductive Line : Set :=
| welcome                (* Welcome to Todo Chat! Type 'exit' to quit. *)
| bot (text : string)    (* Bot: text *)
| error                  (* Error: ... *)
| goodbye.               (* Goodbye! *)

Definition is_exit (userInput : string) : bool :=
  (Js.toLowerCase userInput =? "exit")%string.

(** The body of [while (true)], over the lines typed at the prompt, each
    with the run of the agent it sets off.  The result is what was printed,
    the database, and whether the loop was left; with no line left to read
    the loop is still at its prompt. *)
Fixpoint turns_from (turns : list (string * Agent)) (db : Db)
  : list Line * Db * bool :=
  match turns with
  | [] => ([], db, false)
  | (userInput, a) :: rest =>
      if is_exit userInput then ([goodbye], db, true)
      else
        let '(db', r) := invoke_agent a db in
        let '(out, db'', gone) := turns_from rest db' in
        ((match r with Some text => bot text | None => error end) :: out,
         db'', gone)
  end.

Definition chatLoop (turns : list (string * Agent)) (db : Db)
  : list Line * Db * bool :=
  let '(out, db', gone) := turns_from turns db in (welcome :: out, db', gone).

Definition printed (r : list Line * Db * bool) : list Line := fst (fst r).
Definition db_of (r : list Line * Db * bool) : Db := snd (fst r).
Definition left_loop (r : list Line * Db * bool) : bool := snd r.

End Chat.

(** * Further vocabulary *)

Module More.
Import Pg Store Spec.

(** The number a decimal numeral of the standard library writes, most
    significant digit first. *)
Fixpoint uint_value (acc : Z) (d : Decimal.uint) : Z :=
  match d with
  | Decimal.Nil => acc
  | Decimal.D0 d' => uint_value (10 * acc + 0) d'
  | Decimal.D1 d' => uint_value (10 * acc + 1) d'
  | Decimal.D2 d' => uint_value (10 * acc + 2) d'
  | Decimal.D3 d' => uint_value (10 * acc + 3) d'
  | Decimal.D4 d' => uint_value (10 * acc + 4) d'
  | Decimal.D5 d' => uint_value (10 * acc + 5) d'
  | Decimal.D6 d' => uint_value (10 * acc + 6) d'
  | Decimal.D7 d' => uint_value (10 * acc + 7) d'
  | Decimal.D8 d' => uint_value (10 * acc + 8) d'
  | Decimal.D9 d' => uint_value (10 * acc + 9) d'
  end.

(** A keyword made of [%] only; the empty keyword is one. *)
Fixpoint all_percent (s : string) : bool :=
  match s with
  | String c s' => (c =? "%")%char && all_percent s'
  | EmptyString => true
  end.

Fixpoint percents (s : string) : list LikeTok :=
  match s with
  | String _ s' => AnySeq :: percents s'
  | EmptyString => []
  end.

(** [hay] ends with [suffix]. *)
Definition ends_with (suffix hay : string) : Prop :=
  exists pre, hay = pre ++ suffix.

(** The character of code 0 alone, which no [text] holds. *)
Definition nul : string := String (ascii_of_nat 0) "".

(** No content of the table holds the character of code 0. *)
Definition contents_are_text (db : Db) : Prop :=
  Forall (fun r => has_nul (content r) = false) (todos db).

(** 2^53: up to it every integer is a double. *)
Definition max_safe : Z := 9007199254740992.

(** Rows in the order their ids grow. *)
Definition asc_by_id (l : list Todo) : Prop :=
  StronglySorted (fun a b => id a < id b) l.

(** The first character is a digit in base 16. *)
Definition starts_with_hex_digit (s : string) : bool :=
  match s with
  | String c _ =>
      match Js.radixDigit 16 c with Some _ => true | None => false end
  | EmptyString => false
  end.

(** The table a query left, and the rows a tool call put in its answer. *)
Definition table_after (r : Db * Res Result) : list Todo := todos (fst r).

End More.

Import Pg Store Spec Chat More.

(** Case analysis on a character: all 256 of them. *)
Ltac each_char c :=
  destruct c as [[] [] [] [] [] [] [] []]; vm_compute; try reflexivity;
  try discriminate; auto.

(** * Strings *)

Lemma append_nil_r (s : string) : s ++ "" = s.
Proof. induction s; simpl; congruence. Qed.

Lemma append_assoc (a b c : string) : (a ++ b) ++ c = a ++ (b ++ c).
Proof. induction a; simpl; congruence. Qed.

Lemma lower_append (a b : string) : lower (a ++ b) = lower a ++ lower b.
Proof. induction a; simpl; congruence. Qed.

Lemma lower_char_meta (c : ascii) : is_meta (lower_char c) = is_meta c.
Proof. each_char c. Qed.

Lemma lower_no_meta (s : string) : no_meta (lower s) = no_meta s.
Proof.
  induction s as [|c s IH]; simpl; [reflexivity|].
  now rewrite lower_char_meta, IH.
Qed.

Lemma lower_pattern (k : string) : lower (pattern k) = pattern (lower k).
Proof.
  unfold pattern. now rewrite !lower_append.
Qed.

(** * LIKE *)

Lemma is_meta_false (c : ascii) :
  is_meta c = false ->
  (c =? "\")%char = false /\ (c =? "%")%char = false /\ (c =? "_")%char = false.
Proof.
  unfold is_meta. intros H.
  apply orb_false_iff in H as [H H3]. apply orb_false_iff in H as [H1 H2].
  auto.
Qed.

Lemma like_tokens_no_meta (s t : string) :
  no_meta s = true ->
  like_tokens (s ++ t) = option_map (app (lits s)) (like_tokens t).
Proof.
  induction s as [|c s IH]; simpl; intros H.
  - now destruct (like_tokens t).
  - apply andb_true_iff in H as [Hc Hs].
    apply negb_true_iff, is_meta_false in Hc as (-> & -> & ->).
    rewrite (IH Hs). unfold add_tok. now destruct (like_tokens t).
Qed.

(** A pattern that ends in [%] can always be read: the final [%] is either
    the wildcard or the character a last backslash escapes. *)
Lemma like_tokens_percent_end (n : nat) :
  forall s, (String.length s <= n)%nat -> like_tokens (s ++ "%") <> None.
Proof.
  induction n as [|n IH]; intros s Hn.
  - destruct s; simpl in *; [discriminate | lia].
  - destruct s as [|c s]; [discriminate|]. simpl in Hn.
    assert (Hs : like_tokens (s ++ "%") <> None) by (apply IH; lia).
    change (String c s ++ "%") with (String c (s ++ "%")).
    cbn [like_tokens].
    destruct (c =? "\")%char.
    + destruct s as [|c' s']; simpl; [discriminate|].
      assert (Hs' : like_tokens (s' ++ "%") <> None)
        by (apply IH; simpl in Hn; lia).
      destruct (like_tokens (s' ++ "%")); [discriminate | contradiction].
    + unfold add_tok.
      destruct (like_tokens (s ++ "%")); [|contradiction].
      now destruct (c =? "%")%char, (c =? "_")%char.
Qed.

Lemma like_tokens_pattern (k : string) :
  exists ts, like_tokens (lower (pattern k)) = Some (AnySeq :: ts).
Proof.
  rewrite lower_pattern. unfold pattern.
  change ("%" ++ lower k ++ "%") with (String "%" (lower k ++ "%")).
  cbn [like_tokens]. simpl.
  pose proof (like_tokens_percent_end _ (lower k) (le_n _)) as H.
  destruct (like_tokens (lower k ++ "%")) as [ts|]; [|contradiction].
  now exists ts.
Qed.

(** ** A parameter that is a [text], and one that is not *)

Lemma has_nul_append (a b : string) :
  has_nul (a ++ b) = has_nul a || has_nul b.
Proof.
  induction a as [|c a IH]; simpl; [reflexivity|].
  now rewrite IH, orb_assoc.
Qed.

Lemma has_nul_pattern (k : string) : has_nul (pattern k) = has_nul k.
Proof.
  unfold pattern. rewrite !has_nul_append.
  change (has_nul "%") with false. now rewrite orb_false_r.
Qed.

Lemma textin_pattern (k : string) :
  has_nul k = false -> textin (pattern k) = Ok (pattern k).
Proof. intros H. unfold textin. now rewrite has_nul_pattern, H. Qed.

Lemma textin_pattern_nul (k : string) :
  has_nul k = true -> textin (pattern k) = Fail invalid_byte_sequence.
Proof. intros H. unfold textin. now rewrite has_nul_pattern, H. Qed.

Lemma keyword_ilike_text (k c : string) :
  has_nul k = false -> keyword_ilike k c = ilike c (pattern k).
Proof. intros H. unfold keyword_ilike. now rewrite textin_pattern. Qed.

Lemma keyword_ilike_nul (k c : string) :
  has_nul k = true -> keyword_ilike k c = Fail invalid_byte_sequence.
Proof. intros H. unfold keyword_ilike. now rewrite textin_pattern_nul. Qed.

(** On a keyword that is a [text] the condition never raises. *)
Lemma keyword_ilike_total (k c : string) :
  has_nul k = false -> keyword_ilike k c = Ok (keyword_match k c).
Proof.
  intros H. unfold keyword_match. rewrite (keyword_ilike_text k c H).
  unfold ilike. destruct (like_tokens_pattern k) as [ts ->]. reflexivity.
Qed.

Lemma keyword_match_text (k c : string) :
  has_nul k = false ->
  keyword_match k c
  = match ilike c (pattern k) with Ok b => b | Fail _ => false end.
Proof. intros H. unfold keyword_match. now rewrite keyword_ilike_text. Qed.

Lemma keyword_match_nul (k c : string) :
  has_nul k = true -> keyword_match k c = false.
Proof. intros H. unfold keyword_match. now rewrite keyword_ilike_nul. Qed.

Lemma content_ilike_total (k : string) (r : Todo) :
  has_nul k = false -> content_ilike k r = Ok (matching k r).
Proof. apply keyword_ilike_total. Qed.

Lemma matching_nul (k : string) (r : Todo) :
  has_nul k = true -> matching k r = false.
Proof. apply keyword_match_nul. Qed.

Lemma like_match_any (ts : list LikeTok) (s : string) :
  like_match (AnySeq :: ts) s
  = like_match ts s
    || match s with
       | String _ s' => like_match (AnySeq :: ts) s'
       | EmptyString => false
       end.
Proof. destruct s; reflexivity. Qed.

Lemma like_match_any_iff (ts : list LikeTok) (s : string) :
  like_match (AnySeq :: ts) s = true
  <-> exists pre post, s = pre ++ post /\ like_match ts post = true.
Proof.
  induction s as [|c s IH]; rewrite like_match_any.
  - rewrite orb_false_r. split.
    + intros H. now exists "", "".
    + intros (pre & post & E & H). destruct pre; [|discriminate].
      simpl in E. now subst.
  - rewrite orb_true_iff, IH. split.
    + intros [H | (pre & post & -> & H)].
      * now exists "", (String c s).
      * now exists (String c pre), post.
    + intros (pre & post & E & H). destruct pre as [|d pre]; simpl in E.
      * left. now subst.
      * right. injection E as _ ->. now exists pre, post.
Qed.

Lemma like_match_lits (k : string) (ts : list LikeTok) (s : string) :
  like_match (lits k ++ ts) s = true
  <-> exists rest, s = k ++ rest /\ like_match ts rest = true.
Proof.
  revert s. induction k as [|c k IH]; intros s; simpl.
  - split; [intros H; now exists s | intros (rest & -> & H); exact H].
  - destruct s as [|d s].
    + split; [discriminate | intros (rest & E & _); discriminate].
    + rewrite andb_true_iff, IH, Ascii.eqb_eq. split.
      * intros (-> & rest & -> & H). now exists rest.
      * intros (rest & E & H). injection E as -> ->. split; [reflexivity|].
        now exists rest.
Qed.

Lemma like_match_trailing_any (s : string) : like_match [AnySeq] s = true.
Proof. apply like_match_any_iff. exists s, "". now rewrite append_nil_r. Qed.

Lemma like_contains (k s : string) :
  like_match (AnySeq :: lits k ++ [AnySeq]) s = true <-> occurs_in k s.
Proof.
  rewrite like_match_any_iff. unfold occurs_in. split.
  - intros (pre & post & -> & H). apply like_match_lits in H as (rest & -> & _).
    now exists pre, rest.
  - intros (pre & post & ->). exists pre, (k ++ post). split; [reflexivity|].
    apply like_match_lits. exists post. split; [reflexivity|].
    apply like_match_trailing_any.
Qed.

Lemma starts_with_iff (n h : string) :
  starts_with n h = true <-> exists post, h = n ++ post.
Proof.
  revert h. induction n as [|c n IH]; intros h; simpl.
  - split; [now exists h | reflexivity].
  - destruct h as [|d h].
    + split; [discriminate | intros (post & E); discriminate].
    + rewrite andb_true_iff, IH, Ascii.eqb_eq. split.
      * intros (-> & post & ->). now exists post.
      * intros (post & E). injection E as -> ->. split; [reflexivity|].
        now exists post.
Qed.

Lemma substringb_iff (n h : string) :
  substringb n h = true <-> occurs_in n h.
Proof.
  unfold occurs_in. induction h as [|d h IH]; simpl.
  - rewrite orb_false_r, starts_with_iff. split.
    + intros (post & E). now exists "", post.
    + intros (pre & post & E). destruct pre; [|discriminate]. now exists post.
  - rewrite orb_true_iff, starts_with_iff, IH. split.
    + intros [(post & E) | (pre & post & ->)].
      * now exists "", post.
      * now exists (String d pre), post.
    + intros (pre & post & E). destruct pre as [|e pre]; simpl in E.
      * left. now exists post.
      * right. injection E as _ ->. now exists pre, post.
Qed.

(** ** Folding to lower case, and sameness up to case *)

Lemma code_inj (c d : ascii) : code c = code d -> c = d.
Proof.
  unfold code. intros H. apply N2Z.inj in H.
  rewrite <- (ascii_N_embedding c), <- (ascii_N_embedding d). now rewrite H.
Qed.

Lemma lower_char_capital (c : ascii) :
  is_capital c = true ->
  code (lower_char c) = code c + 32 /\ is_capital (lower_char c) = false.
Proof.
  destruct c as [[] [] [] [] [] [] [] []]; vm_compute; intros H;
    try discriminate H; split; reflexivity.
Qed.

Lemma lower_char_small (c : ascii) :
  is_capital c = false -> lower_char c = c.
Proof. unfold lower_char, is_capital. now intros ->. Qed.

Lemma small_of_capital (c d : ascii) :
  is_capital c = true -> code d = code c + 32 ->
  d = lower_char c /\ is_capital d = false.
Proof.
  intros Hc Hd. destruct (lower_char_capital c Hc) as [Hl Hs].
  assert (d = lower_char c) as -> by (apply code_inj; lia). now split.
Qed.

Lemma lower_char_same (c d : ascii) :
  lower_char c = lower_char d <-> same_up_to_case c d = true.
Proof.
  unfold same_up_to_case.
  rewrite !orb_true_iff, !andb_true_iff, Ascii.eqb_eq, !Z.eqb_eq.
  destruct (is_capital c) eqn:Hc, (is_capital d) eqn:Hd.
  - destruct (lower_char_capital c Hc) as [Lc _].
    destruct (lower_char_capital d Hd) as [Ld _]. split.
    + intros H. left. left. apply code_inj.
      assert (code (lower_char c) = code (lower_char d)) by now rewrite H.
      lia.
    + intros [[->|[_ H]]|[_ H]]; [reflexivity | |].
      * destruct (small_of_capital c d Hc H). congruence.
      * destruct (small_of_capital d c Hd H). congruence.
  - destruct (lower_char_capital c Hc) as [Lc _].
    rewrite (lower_char_small d Hd). split.
    + intros H. left. right. split; [reflexivity|]. rewrite <- H. exact Lc.
    + intros [[->|[_ H]]|[H _]]; [congruence | | discriminate].
      symmetry. now apply (small_of_capital c d).
  - destruct (lower_char_capital d Hd) as [Ld _].
    rewrite (lower_char_small c Hc). split.
    + intros H. right. split; [reflexivity|]. rewrite H. exact Ld.
    + intros [[->|[H _]]|[_ H]]; [congruence | discriminate |].
      now apply (small_of_capital d c).
  - rewrite (lower_char_small c Hc), (lower_char_small d Hd). split.
    + intros ->. now left; left.
    + intros [[->|[H _]]|[H _]]; [reflexivity | discriminate..].
Qed.

Lemma lower_char_eqb (c d : ascii) :
  (lower_char c =? lower_char d)%char = same_up_to_case c d.
Proof.
  apply eq_true_iff_eq. rewrite Ascii.eqb_eq. apply lower_char_same.
Qed.

Lemma ci_eqb_lower (a b : string) :
  ci_eqb a b = true <-> lower a = lower b.
Proof.
  revert b. induction a as [|c a IH]; intros [|d b]; simpl;
    try (split; [reflexivity | reflexivity]);
    try (split; discriminate).
  rewrite andb_true_iff, <- lower_char_same, IH. split.
  - now intros [-> ->].
  - intros H. now injection H.
Qed.

Lemma ci_starts_with_lower (n h : string) :
  ci_starts_with n h = starts_with (lower n) (lower h).
Proof.
  revert h. induction n as [|c n IH]; intros [|d h]; simpl; try reflexivity.
  now rewrite IH, lower_char_eqb.
Qed.

Lemma ci_contains_lower (k c : string) :
  ci_contains k c = substringb (lower k) (lower c).
Proof.
  induction c as [|d c IH]; simpl.
  - now rewrite ci_starts_with_lower.
  - now rewrite ci_starts_with_lower, IH.
Qed.

Lemma lower_split (s a b : string) :
  lower s = a ++ b ->
  exists s1 s2, s = s1 ++ s2 /\ lower s1 = a /\ lower s2 = b.
Proof.
  revert s. induction a as [|c a IH]; intros s H.
  - now exists "", s.
  - destruct s as [|d s]; [discriminate|]. simpl in H.
    injection H as Hc Hs. destruct (IH s Hs) as (s1 & s2 & -> & <- & <-).
    exists (String d s1), s2. simpl. now rewrite Hc.
Qed.

Lemma ci_occurs_lower (k c : string) :
  ci_occurs k c <-> occurs_in (lower k) (lower c).
Proof.
  unfold ci_occurs, occurs_in. split.
  - intros (pre & mid & post & -> & H). apply ci_eqb_lower in H.
    exists (lower pre), (lower post). now rewrite !lower_append, H.
  - intros (pre & post & H).
    apply lower_split in H as (s1 & s23 & -> & _ & H).
    apply lower_split in H as (s2 & s3 & -> & H & _).
    exists s1, s2, s3. split; [reflexivity | now apply ci_eqb_lower].
Qed.

Lemma ci_ends_with_lower (suffix c : string) :
  ci_ends_with suffix c <-> ends_with (lower suffix) (lower c).
Proof.
  unfold ci_ends_with, ends_with. split.
  - intros (pre & mid & -> & H). apply ci_eqb_lower in H.
    exists (lower pre). now rewrite lower_append, H.
  - intros (pre & H). apply lower_split in H as (s1 & s2 & -> & _ & H).
    exists s1, s2. split; [reflexivity | now apply ci_eqb_lower].
Qed.

Lemma ci_contains_occurs (k c : string) :
  ci_contains k c = true <-> ci_occurs k c.
Proof.
  now rewrite ci_contains_lower, substringb_iff, ci_occurs_lower.
Qed.

(** For a keyword without [%], [_] and backslash, the statements' predicate
    is containment up to case. *)
Lemma keyword_match_no_meta (k c : string) :
  has_nul k = false ->
  no_meta k = true -> keyword_match k c = ci_contains k c.
Proof.
  intros Hnul Hk. rewrite (keyword_match_text k c Hnul), ci_contains_lower.
  unfold ilike.
  rewrite lower_pattern. unfold pattern.
  change ("%" ++ lower k ++ "%") with (String "%" (lower k ++ "%")).
  cbn [like_tokens]. simpl (_ =? _)%char. cbv iota.
  rewrite like_tokens_no_meta by now rewrite lower_no_meta.
  cbn [option_map like_tokens app].
  change (like_match (AnySeq :: lits (lower k) ++ [AnySeq]) (lower c)
          = substringb (lower k) (lower c)).
  apply eq_true_iff_eq.
  now rewrite like_contains, substringb_iff.
Qed.

(** * SQL evaluation with a condition that cannot raise *)

Section PureCondition.
Variable cond : Todo -> Res bool.
Variable f : Todo -> bool.
Hypothesis cond_pure : forall r, cond r = Ok (f r).

Lemma select_where_pure (l : list Todo) :
  select_where cond l = Ok (filter f l).
Proof.
  induction l as [|r l IH]; simpl; [reflexivity|].
  rewrite cond_pure, IH. simpl. now destruct (f r).
Qed.

Lemma update_where_pure (s : Status) (l : list Todo) :
  update_where cond s l
  = Ok (map (mark f s) l, map (set_status s) (filter f l)).
Proof.
  induction l as [|r l IH]; simpl; [reflexivity|].
  rewrite cond_pure, IH. simpl. unfold mark. now destruct (f r).
Qed.

End PureCondition.

Lemma mkDb_eta (db : Db) : mkDb (todos db) (todos_id_seq db) = db.
Proof. now destruct db. Qed.

Lemma map_mark_none (f : Todo -> bool) (s : Status) (l : list Todo) :
  (forall r, In r l -> f r = false) -> map (mark f s) l = l.
Proof.
  intros H. rewrite <- (map_id l) at 2. apply map_ext_in.
  intros r Hr. unfold mark. now rewrite (H r Hr).
Qed.

Lemma filter_none {A : Type} (f : A -> bool) (l : list A) :
  (forall x, In x l -> f x = false) -> filter f l = [].
Proof.
  induction l as [|x l IH]; simpl; intros H; [reflexivity|].
  rewrite (H x) by auto. apply IH. auto.
Qed.

Lemma deleted_matching_nul (k : string) (r : Todo) :
  has_nul k = true -> deleted_matching k r = false.
Proof. intros H. unfold deleted_matching. now rewrite matching_nul. Qed.

Lemma active_matching_nul (k : string) (r : Todo) :
  has_nul k = true -> active_matching k r = false.
Proof. intros H. unfold active_matching. now rewrite matching_nul. Qed.

(** ** Delete *)

Lemma deleteTodo_res_eq (k : string) (db : Db) :
  has_nul k = false ->
  deleteTodo_res k db
  = (mkDb (map (mark (matching k) deleted) (todos db)) (todos_id_seq db),
     Ok (mkResult (map (set_status deleted) (filter (matching k) (todos db)))
                  (List.length (filter (matching k) (todos db))))).
Proof.
  intros H. unfold deleteTodo_res. rewrite (textin_pattern k H).
  rewrite (update_where_pure _ (matching k))
    by (intros r; now apply content_ilike_total).
  now rewrite length_map.
Qed.

Lemma deleteTodo_res_nul (k : string) (db : Db) :
  has_nul k = true -> deleteTodo_res k db = (db, Fail invalid_byte_sequence).
Proof.
  intros H. unfold deleteTodo_res. now rewrite (textin_pattern_nul k H).
Qed.

Lemma fst_deleteTodo_res (k : string) (db : Db) :
  fst (deleteTodo_res k db)
  = mkDb (map (mark (matching k) deleted) (todos db)) (todos_id_seq db).
Proof.
  destruct (has_nul k) eqn:H.
  - rewrite (deleteTodo_res_nul k db H). cbn [fst].
    rewrite map_mark_none by (intros; now apply matching_nul).
    symmetry. apply mkDb_eta.
  - now rewrite (deleteTodo_res_eq k db H).
Qed.


Lemma count_of_deleteTodo_res (k : string) (db : Db) :
  count_of (deleteTodo_res k db)
  = List.length (filter (matching k) (todos db)).
Proof.
  destruct (has_nul k) eqn:H.
  - rewrite (deleteTodo_res_nul k db H).
    now rewrite filter_none by (intros; now apply matching_nul).
  - now rewrite (deleteTodo_res_eq k db H).
Qed.

(** ** Restore *)

Lemma restoreTodo_res_eq (k : string) (db : Db) :
  has_nul k = false ->
  restoreTodo_res k db
  = (mkDb (map (mark (deleted_matching k) active) (todos db))
          (todos_id_seq db),
     Ok (mkResult
           (map (set_status active) (filter (deleted_matching k) (todos db)))
           (List.length (filter (deleted_matching k) (todos db))))).
Proof.
  intros H. unfold restoreTodo_res. rewrite (textin_pattern k H).
  rewrite (update_where_pure _ (deleted_matching k)).
  - now rewrite length_map.
  - intros r. now rewrite content_ilike_total.
Qed.

Lemma restoreTodo_res_nul (k : string) (db : Db) :
  has_nul k = true -> restoreTodo_res k db = (db, Fail invalid_byte_sequence).
Proof.
  intros H. unfold restoreTodo_res. now rewrite (textin_pattern_nul k H).
Qed.

Lemma fst_restoreTodo_res (k : string) (db : Db) :
  fst (restoreTodo_res k db)
  = mkDb (map (mark (deleted_matching k) active) (todos db))
         (todos_id_seq db).
Proof.
  destruct (has_nul k) eqn:H.
  - rewrite (restoreTodo_res_nul k db H). cbn [fst].
    rewrite map_mark_none by (intros; now apply deleted_matching_nul).
    symmetry. apply mkDb_eta.
  - now rewrite (restoreTodo_res_eq k db H).
Qed.


Lemma count_of_restoreTodo_res (k : string) (db : Db) :
  count_of (restoreTodo_res k db)
  = List.length (filter (deleted_matching k) (todos db)).
Proof.
  destruct (has_nul k) eqn:H.
  - rewrite (restoreTodo_res_nul k db H).
    now rewrite filter_none by (intros; now apply deleted_matching_nul).
  - now rewrite (restoreTodo_res_eq k db H).
Qed.

(** ** The text search *)

Lemma select_active_like_eq (k : string) (db : Db) :
  has_nul k = false ->
  select_active_like k db
  = (db, Ok (mkResult (filter (active_matching k) (todos db))
                      (List.length (filter (active_matching k) (todos db))))).
Proof.
  intros H. unfold select_active_like, select. rewrite (textin_pattern k H).
  rewrite (select_where_pure _ (active_matching k)); [reflexivity|].
  intros r. now rewrite content_ilike_total.
Qed.

Lemma select_active_like_nul (k : string) (db : Db) :
  has_nul k = true ->
  select_active_like k db = (db, Fail invalid_byte_sequence).
Proof.
  intros H. unfold select_active_like. now rewrite (textin_pattern_nul k H).
Qed.

Lemma rows_of_select_active_like (k : string) (db : Db) :
  rows_of (select_active_like k db) = filter (active_matching k) (todos db).
Proof.
  destruct (has_nul k) eqn:H.
  - rewrite (select_active_like_nul k db H).
    now rewrite filter_none by (intros; now apply active_matching_nul).
  - now rewrite (select_active_like_eq k db H).
Qed.

Lemma fst_select_active_like (k : string) (db : Db) :
  fst (select_active_like k db) = db.
Proof.
  destruct (has_nul k) eqn:H.
  - now rewrite (select_active_like_nul k db H).
  - now rewrite (select_active_like_eq k db H).
Qed.

(** ** The lookup by id *)

Lemma select_by_id_eq (n : Z) (db : Db) :
  select_by_id n db
  = if (int4_min <=? n) && (n <=? int4_max)
    then (db, Ok (mkResult (filter (fun r => id r =? n) (todos db))
                   (List.length (filter (fun r => id r =? n) (todos db)))))
    else (db, Fail integer_rejected).
Proof.
  unfold select_by_id, int4in.
  destruct ((int4_min <=? n) && (n <=? int4_max)); [|reflexivity].
  unfold select.
  now rewrite (select_where_pure _ (fun r => id r =? n)).
Qed.

(** * Rows under [SET status] *)

Lemma mark_same_row (f : Todo -> bool) (s : Status) (r : Todo) :
  same_row r (mark f s r).
Proof. unfold mark, same_row. now destruct (f r). Qed.

Lemma map_mark_same_rows (f : Todo -> bool) (s : Status) (l : list Todo) :
  Forall2 same_row l (map (mark f s) l).
Proof.
  induction l; simpl; constructor; auto using mark_same_row.
Qed.

Lemma map_mark_ids (f : Todo -> bool) (s : Status) (l : list Todo) :
  map id (map (mark f s) l) = map id l.
Proof.
  rewrite map_map. apply map_ext. intros r. unfold mark. now destruct (f r).
Qed.

Lemma status_eqb_eq (a b : Status) : status_eqb a b = true <-> a = b.
Proof. destruct a, b; simpl; split; congruence. Qed.

Lemma is_active_iff (r : Todo) : is_active r = true <-> status r = active.
Proof. apply status_eqb_eq. Qed.

(** * The tools leave the primary key and the sequence in order *)

Lemma text_keeps_db (q : Query Result) (t : Result -> string) (db : Db) :
  fst (reply q t db) = fst (q db).
Proof. unfold reply. now destruct (q db) as [db' [res|e]]. Qed.

Lemma after_add (c : string) (db : Db) :
  after (add_todo c) db = fst (addTodo_res c db).
Proof. apply text_keeps_db. Qed.

Lemma after_delete (k : string) (db : Db) :
  after (delete_todo k) db
  = mkDb (map (mark (matching k) deleted) (todos db)) (todos_id_seq db).
Proof.
  unfold after, invoke, deleteTodo. rewrite text_keeps_db.
  apply fst_deleteTodo_res.
Qed.

Lemma after_restore (k : string) (db : Db) :
  after (restore_todo k) db
  = mkDb (map (mark (deleted_matching k) active) (todos db))
         (todos_id_seq db).
Proof.
  unfold after, invoke, restoreTodo. rewrite text_keeps_db.
  apply fst_restoreTodo_res.
Qed.

Lemma searchTodo_res_keeps_db (q : string) (db : Db) :
  fst (searchTodo_res q db) = db.
Proof.
  unfold searchTodo_res. destruct (Js.parseInt q) as [n|].
  - rewrite select_by_id_eq. now destruct (_ && _).
  - apply fst_select_active_like.
Qed.

Lemma after_search (q : string) (db : Db) : after (search_todo q) db = db.
Proof.
  unfold after, invoke, searchTodo. rewrite text_keeps_db.
  apply searchTodo_res_keeps_db.
Qed.

Lemma after_read (b : bool) (db : Db) : after (read_todo b) db = db.
Proof. reflexivity. Qed.

Lemma existsb_id_fresh (v : Z) (l : list Todo) :
  Forall (fun r => 1 <= id r < v) l -> existsb (fun r => id r =? v) l = false.
Proof.
  induction 1 as [|r l Hr _ IH]; simpl; [reflexivity|].
  rewrite IH, orb_false_r. apply Z.eqb_neq. lia.
Qed.

(** With the primary key and the sequence in order, an insert takes the next
    value of the sequence and cannot collide. *)
Lemma addTodo_res_eq (c : string) (db : Db) :
  has_nul c = false ->
  pk_ok db ->
  todos_id_seq db <= int4_max ->
  addTodo_res c db
  = (mkDb (todos db ++ [mkTodo (todos_id_seq db) c active])
          (todos_id_seq db + 1),
     Ok (mkResult [] 1)).
Proof.
  intros Hc (_ & Hids & _) Hseq. unfold addTodo_res, textin, nextval.
  rewrite Hc. apply Z.leb_le in Hseq. rewrite Hseq.
  cbn [todos todos_id_seq]. now rewrite existsb_id_fresh.
Qed.

Lemma addTodo_res_exhausted (c : string) (db : Db) :
  has_nul c = false ->
  int4_max < todos_id_seq db ->
  addTodo_res c db = (db, Fail sequence_exhausted).
Proof.
  intros Hc H. unfold addTodo_res, textin, nextval. rewrite Hc.
  apply Z.leb_gt in H. now rewrite H.
Qed.

(** A content that is no [text] is refused before anything is done: no row
    is stored and the sequence stays where it was. *)
Lemma addTodo_res_nul (c : string) (db : Db) :
  has_nul c = true -> addTodo_res c db = (db, Fail invalid_byte_sequence).
Proof. intros Hc. unfold addTodo_res, textin. now rewrite Hc. Qed.

(** What an Add leaves, in its three cases. *)
Lemma after_add_cases (c : string) (db : Db) :
  pk_ok db ->
  (after (add_todo c) db = db)
  \/ (has_nul c = false /\ todos_id_seq db <= int4_max
      /\ after (add_todo c) db
         = mkDb (todos db ++ [mkTodo (todos_id_seq db) c active])
                (todos_id_seq db + 1)).
Proof.
  intros Hpk. rewrite after_add. destruct (has_nul c) eqn:Hc.
  - left. now rewrite addTodo_res_nul.
  - destruct (Z.le_gt_cases (todos_id_seq db) int4_max) as [Hle|Hgt].
    + right. now rewrite addTodo_res_eq.
    + left. now rewrite addTodo_res_exhausted by (assumption || lia).
Qed.

Lemma pk_ok_after (c : Call) (db : Db) : pk_ok db -> pk_ok (after c db).
Proof.
  intros Hpk. destruct c as [c|k|q|k|b].
  - destruct (after_add_cases c db Hpk) as [->|(_ & Hle & ->)];
      [exact Hpk|].
    destruct Hpk as (Hnd & Hids & Hseq). unfold pk_ok.
    cbn [todos todos_id_seq]. repeat split; try lia.
    + rewrite map_app. simpl. apply NoDup_app; auto.
      * repeat constructor. simpl. tauto.
      * intros x Hx [<-|[]]. apply in_map_iff in Hx as (r & E & Hr).
        rewrite Forall_forall in Hids. specialize (Hids r Hr). lia.
    + apply Forall_app. split.
      * eapply Forall_impl; [|exact Hids]. simpl. intros; lia.
      * repeat constructor; simpl; lia.
  - rewrite after_delete. destruct Hpk as (Hnd & Hids & Hseq).
    unfold pk_ok. cbn [todos todos_id_seq]. rewrite map_mark_ids.
    repeat split; auto.
    apply Forall_map. eapply Forall_impl; [|exact Hids].
    intros r. unfold mark. now destruct (matching k r).
  - now rewrite after_search.
  - rewrite after_restore. destruct Hpk as (Hnd & Hids & Hseq).
    unfold pk_ok. cbn [todos todos_id_seq]. rewrite map_mark_ids.
    repeat split; auto.
    apply Forall_map. eapply Forall_impl; [|exact Hids].
    intros r. unfold mark. now destruct (deleted_matching k r).
  - now rewrite after_read.
Qed.

Lemma pk_ok_empty : pk_ok empty_db.
Proof. unfold pk_ok, empty_db. simpl. repeat split; try constructor; lia. Qed.

Lemma reachable_pk_ok (db : Db) : reachable db -> pk_ok db.
Proof.
  induction 1; [apply pk_ok_empty | now apply pk_ok_after].
Qed.

(** * [ORDER BY id DESC] *)

Lemma insert_desc_perm (r : Todo) (l : list Todo) :
  Permutation (r :: l) (insert_desc r l).
Proof.
  induction l as [|x l IH]; simpl; [reflexivity|].
  destruct (id x <=? id r); [reflexivity|].
  rewrite perm_swap. now apply perm_skip.
Qed.

Lemma order_by_id_desc_perm (l : list Todo) :
  Permutation l (order_by_id_desc l).
Proof.
  induction l as [|r l IH]; simpl; [reflexivity|].
  rewrite <- insert_desc_perm. now apply perm_skip.
Qed.

Lemma insert_desc_sorted (r : Todo) (l : list Todo) :
  desc_by_id l -> desc_by_id (insert_desc r l).
Proof.
  unfold desc_by_id. induction 1 as [|x l Hl IH Hx]; simpl.
  - repeat constructor.
  - destruct (id x <=? id r) eqn:E.
    + apply Z.leb_le in E. constructor; [now constructor|].
      constructor; [exact E|].
      eapply Forall_impl; [|exact Hx]. simpl. intros; lia.
    + apply Z.leb_gt in E. constructor; [exact IH|].
      rewrite <- insert_desc_perm. constructor; [lia | exact Hx].
Qed.

Lemma order_by_id_desc_sorted (l : list Todo) :
  desc_by_id (order_by_id_desc l).
Proof.
  induction l as [|r l IH]; simpl; [constructor|].
  now apply insert_desc_sorted.
Qed.

Lemma insert_desc_first (r : Todo) (l : list Todo) :
  Forall (fun y => id y <= id r) l -> insert_desc r l = r :: l.
Proof.
  destruct 1 as [|x l Hx _]; simpl; [reflexivity|].
  apply Z.leb_le in Hx. now rewrite Hx.
Qed.

Lemma filter_Forall {A : Type} (P : A -> Prop) (p : A -> bool) (l : list A) :
  Forall P l -> Forall P (filter p l).
Proof.
  induction 1 as [|x l Hx _ IH]; simpl; [constructor|].
  destruct (p x); [now constructor | exact IH].
Qed.

Lemma filter_insert_desc (p : Todo -> bool) (r : Todo) (l : list Todo) :
  desc_by_id l ->
  filter p (insert_desc r l)
  = if p r then insert_desc r (filter p l) else filter p l.
Proof.
  unfold desc_by_id. induction 1 as [|x l Hl IH Hx].
  - simpl. now destruct (p r).
  - cbn [insert_desc]. destruct (id x <=? id r) eqn:E.
    + apply Z.leb_le in E. cbn [filter]. destruct (p r); [|reflexivity].
      symmetry. apply insert_desc_first.
      change (Forall (fun y => id y <= id r) (filter p (x :: l))).
      apply filter_Forall. constructor; [exact E|].
      eapply Forall_impl; [|exact Hx]. simpl. intros; lia.
    + cbn [filter]. rewrite IH.
      destruct (p x), (p r); cbn [insert_desc]; now rewrite ?E.
Qed.

(** Filtering before or after the sort gives the same listing. *)
Lemma filter_order_by_id_desc (p : Todo -> bool) (l : list Todo) :
  filter p (order_by_id_desc l) = order_by_id_desc (filter p l).
Proof.
  induction l as [|r l IH]; simpl; [reflexivity|].
  rewrite filter_insert_desc by apply order_by_id_desc_sorted.
  rewrite IH. now destruct (p r).
Qed.

(** * Lookup by primary key *)

Lemma filter_id_absent (n : Z) (l : list Todo) :
  ~ In n (map id l) -> filter (fun r => id r =? n) l = [].
Proof.
  induction l as [|r l IH]; simpl; intros H; [reflexivity|].
  destruct (id r =? n) eqn:E.
  - apply Z.eqb_eq in E. tauto.
  - apply IH. tauto.
Qed.

Lemma filter_id_at_most_one (n : Z) (l : list Todo) :
  NoDup (map id l) ->
  (List.length (filter (fun r => (id r =? n)%Z) l) <= 1)%nat.
Proof.
  induction l as [|r l IH]; simpl; intros H; [lia|].
  inversion H as [|? ? Hnotin Hnd]; subst.
  destruct (id r =? n) eqn:E.
  - apply Z.eqb_eq in E. subst n. rewrite filter_id_absent by assumption.
    simpl. lia.
  - now apply IH.
Qed.

(** * [parseInt] on decimal digits *)

Lemma digit_char (c : ascii) :
  between 48 57 c = true ->
  Js.isWhiteSpace c = false
  /\ (c =? "-")%char = false /\ (c =? "+")%char = false
  /\ (c =? "x")%char = false /\ (c =? "X")%char = false
  /\ Js.radixDigit 10 c = Some (code c - 48).
Proof.
  destruct c as [[] [] [] [] [] [] [] []]; vm_compute; intros H;
    try discriminate H; repeat split; reflexivity.
Qed.

Lemma not_digit_char (c : ascii) :
  between 48 57 c = false -> Js.radixDigit 10 c = None.
Proof.
  destruct c as [[] [] [] [] [] [] [] []]; vm_compute; intros H;
    try discriminate H; reflexivity.
Qed.

Lemma digitsPrefix_digits (ds rest : string) (acc : Z) :
  all_digits ds = true ->
  starts_with_digit rest = false ->
  fold_left (fun a d => a * 10 + d) (Js.digitsPrefix 10 (ds ++ rest)) acc
  = decimal_from acc ds
  /\ (ds <> "" -> Js.digitsPrefix 10 (ds ++ rest) <> []).
Proof.
  revert acc. induction ds as [|c ds IH]; intros acc Hds Hrest.
  - split; [|congruence]. simpl.
    destruct rest as [|c rest]; [reflexivity|]. simpl in *.
    now rewrite (not_digit_char c Hrest).
  - simpl in Hds. apply andb_true_iff in Hds as [Hc Hds].
    destruct (digit_char c Hc) as (_ & _ & _ & _ & _ & Hd).
    change (String c ds ++ rest) with (String c (ds ++ rest)).
    cbn [Js.digitsPrefix decimal_from]. rewrite Hd. cbn [fold_left].
    split; [|discriminate].
    destruct (IH (acc * 10 + (code c - 48)) Hds Hrest) as [-> _].
    f_equal. lia.
Qed.

(** A string that starts with decimal digits parses to the number they
    write, unless it starts with [0x] or [0X]. *)
Lemma parseInt_digits_then (ds rest : string) :
  purely_numeric ds = true ->
  starts_with_digit rest = false ->
  fst (Js.stripPrefix (ds ++ rest)) = 10 ->
  Js.parseInt (ds ++ rest) = Some (decimal ds).
Proof.
  intros Hds Hrest Hpre. unfold Js.parseInt.
  destruct ds as [|c ds]; [discriminate|].
  assert (Hall : all_digits (String c ds) = true) by exact Hds.
  pose proof Hall as Hc. simpl in Hc. apply andb_true_iff in Hc as [Hc _].
  destruct (digit_char c Hc) as (Hws & Hm & Hp & _).
  change (String c ds ++ rest) with (String c (ds ++ rest)) in *.
  cbn [Js.trimStart]. rewrite Hws. cbn [Js.stripSign]. rewrite Hm, Hp.
  destruct (Js.stripPrefix (String c (ds ++ rest))) as [R S2] eqn:E.
  simpl in Hpre. subst R.
  assert (S2 = String c (ds ++ rest)) as ->.
  { unfold Js.stripPrefix in E. destruct (ds ++ rest) as [|c1 s'].
    - now injection E.
    - destruct ((c =? "0")%char && ((c1 =? "x")%char || (c1 =? "X")%char));
        [discriminate | now injection E]. }
  change (String c (ds ++ rest)) with (String c ds ++ rest).
  destruct (digitsPrefix_digits (String c ds) rest 0 Hall Hrest) as [Hv Hne].
  unfold Js.mathInt.
  destruct (Js.digitsPrefix 10 (String c ds ++ rest)) as [|d l] eqn:El.
  - exfalso. now apply Hne.
  - rewrite Hv. unfold decimal. f_equal. lia.
Qed.

Lemma stripPrefix_digits (s : string) :
  all_digits s = true -> fst (Js.stripPrefix s) = 10.
Proof.
  destruct s as [|c0 [|c1 s]]; try reflexivity. simpl.
  intros H. apply andb_true_iff in H as [_ H].
  apply andb_true_iff in H as [H1 _].
  destruct (digit_char c1 H1) as (_ & _ & _ & -> & -> & _).
  now rewrite andb_false_r.
Qed.

Lemma parseInt_purely_numeric (q : string) :
  purely_numeric q = true -> Js.parseInt q = Some (decimal q).
Proof.
  intros H. rewrite <- (append_nil_r q) at 1.
  apply parseInt_digits_then; [exact H | reflexivity|].
  rewrite append_nil_r. apply stripPrefix_digits.
  destruct q; [discriminate | exact H].
Qed.

Lemma decimal_from_nonneg (s : string) (acc : Z) :
  all_digits s = true -> 0 <= acc -> 0 <= decimal_from acc s.
Proof.
  revert acc.
  induction s as [|c s IH]; intros acc Hs Hacc; cbn [decimal_from]; [lia|].
  simpl in Hs. apply andb_true_iff in Hs as [Hc Hs].
  apply IH; [exact Hs|]. unfold between in Hc.
  apply andb_true_iff in Hc as [Hc _]. apply Z.leb_le in Hc. lia.
Qed.

(** * Delete *)

Lemma Forall2_map_r {A B : Type} (P : A -> B -> Prop) (g : A -> B)
      (l : list A) :
  (forall x, P x (g x)) -> Forall2 P l (map g l).
Proof. intros H. induction l; simpl; constructor; auto. Qed.

Lemma matching_no_meta (k : string) (r : Todo) :
  has_nul k = false ->
  no_meta k = true -> matching k r = ci_contains k (content r).
Proof. apply keyword_match_no_meta. Qed.

Lemma status_cases (r : Todo) :
  (is_active r = true /\ is_deleted r = false /\ status r = active)
  \/ (is_active r = false /\ is_deleted r = true /\ status r = deleted).
Proof. unfold is_active, is_deleted. destruct (status r); simpl; auto. Qed.


(** A second delete with the same keyword finds the same rows again. *)
Lemma delete_again_same_count (k : string) (db : Db) :
  count_of (deleteTodo_res k (after (delete_todo k) db))
  = count_of (deleteTodo_res k db).
Proof.
  rewrite !count_of_deleteTodo_res, after_delete. cbn [todos].
  induction (todos db) as [|r l IH]; simpl; [reflexivity|].
  unfold mark at 1.
  destruct (matching k r) eqn:E.
  - unfold matching in *. cbn [set_status content]. rewrite E. simpl.
    now rewrite IH.
  - now rewrite E.
Qed.

(** C1, as the statement behaves: for every table and every keyword [k]
    without [%], [_] and backslash.  When [k] holds no character of code 0,
    Delete(k) resolves, transitions to deleted exactly the active rows whose
    content contains [k] up to case and changes no other row; when no
    matching row is already deleted the count is the number of rows so
    transitioned; and the count is 0 when no row matches.  When [k] holds
    the character of code 0 the database refuses it: Delete throws and
    changes nothing. *)
Theorem delete_without_wildcards (k : string) (db : Db) :
  no_meta k = true ->
  (has_nul k = false ->
   resolved (deleteTodo_res k db) = true
   /\ delete_transitions k db
   /\ ((forall r, In r (todos db) -> ci_contains k (content r) = true ->
                  status r = active) ->
       delete_count k db)
   /\ ((forall r, In r (todos db) -> ci_contains k (content r) = false) ->
       count_of (deleteTodo_res k db) = 0%nat))
  /\ (has_nul k = true ->
      deleteTodo_res k db = (db, Fail invalid_byte_sequence)).
Proof.
  intros Hk. split; [|apply deleteTodo_res_nul].
  intros Hnul. split; [|split; [|split]].
  - now rewrite deleteTodo_res_eq.
  - unfold delete_transitions. rewrite fst_deleteTodo_res. cbn [todos].
    apply Forall2_map_r. intros r. split; [apply mark_same_row|].
    unfold mark. rewrite (matching_no_meta k r Hnul Hk).
    destruct (ci_contains k (content r)); [|now rewrite andb_false_r].
    rewrite andb_true_r. cbn [set_status status].
    now destruct (status_cases r) as [(-> & _ & _) | (-> & _ & ->)].
  - intros Hact. unfold delete_count. rewrite count_of_deleteTodo_res.
    f_equal. apply filter_ext_in. intros r Hr.
    rewrite (matching_no_meta k r Hnul Hk).
    destruct (ci_contains k (content r)) eqn:E; [|now rewrite andb_false_r].
    now rewrite (proj2 (is_active_iff r) (Hact r Hr E)).
  - intros Hnone. rewrite count_of_deleteTodo_res.
    rewrite filter_none; [reflexivity|]. intros r Hr.
    rewrite (matching_no_meta k r Hnul Hk). now apply Hnone.
Qed.

Lemma delete_without_wildcards_witness :
  no_meta "MILK" = true /\ has_nul "MILK" = false
  /\ delete_transitions "MILK" db_milk /\ delete_count "MILK" db_milk.
Proof.
  destruct (delete_without_wildcards "MILK" db_milk eq_refl) as [H _].
  destruct (H eq_refl) as (_ & Ht & Hc & _).
  split; [reflexivity|]. split; [reflexivity|]. split; [exact Ht|].
  apply Hc. intros r [<-|[]] _. reflexivity.
Defined.

(** C1 fails as worded: [_] is a wildcard, so Delete("_") deletes the active
    row "buy milk", whose content has no underscore. *)
Lemma delete_underscore_counterexample : ~ delete_spec "_" db_milk.
Proof.
  intros [Ht _]. unfold delete_transitions in Ht.
  vm_compute in Ht. inversion Ht as [|? ? ? ? [_ Hst] _]. discriminate Hst.
Qed.

(** C2: on the table holding the single active todo "buy milk", Delete("milk")
    returns 1, and Delete("milk") run again right after returns 1 again, not
    0: the row, now deleted, still matches and is counted. *)
Theorem delete_twice_counts_again :
  count_of (deleteTodo_res "milk" db_milk) = 1%nat
  /\ count_of (deleteTodo_res "milk" (after (delete_todo "milk") db_milk))
     = 1%nat
  /\ snd (deleteTodo "milk" (after (delete_todo "milk") db_milk))
     = Ok "Deleted 1 item(s)".
Proof. repeat split; vm_compute; reflexivity. Qed.

(** * Restore *)

(** C3, as the statement behaves: for every table and every keyword [k]
    without [%], [_] and backslash.  When [k] holds no character of code 0,
    Restore(k) resolves and transitions to active exactly the deleted rows
    whose content contains [k] up to case; rows already active are not
    affected; and when every matching row is already active it returns 0
    and leaves the table unchanged.  When [k] holds the character of code 0
    the database refuses it: Restore throws and changes nothing. *)
Theorem restore_without_wildcards (k : string) (db : Db) :
  no_meta k = true ->
  (has_nul k = false ->
   resolved (restoreTodo_res k db) = true /\ restore_spec k db)
  /\ (has_nul k = true ->
      restoreTodo_res k db = (db, Fail invalid_byte_sequence)).
Proof.
  intros Hk. split; [|apply restoreTodo_res_nul].
  intros Hnul. split; [now rewrite restoreTodo_res_eq|]. split.
  - unfold restore_transitions. rewrite fst_restoreTodo_res. cbn [todos].
    apply Forall2_map_r. intros r. split; [apply mark_same_row|].
    unfold mark, deleted_matching. rewrite (matching_no_meta k r Hnul Hk).
    rewrite andb_comm.
    destruct (is_deleted r && ci_contains k (content r)); reflexivity.
  - intros Hact.
    assert (Hnone : forall r, In r (todos db) -> deleted_matching k r = false).
    { intros r Hr. unfold deleted_matching.
      rewrite (matching_no_meta k r Hnul Hk).
      destruct (ci_contains k (content r)) eqn:E; [|reflexivity].
      specialize (Hact r Hr E).
      destruct (status_cases r) as [(_ & -> & _) | (_ & _ & Hd)];
        [reflexivity | congruence]. }
    rewrite count_of_restoreTodo_res, fst_restoreTodo_res.
    rewrite filter_none, map_mark_none by assumption.
    split; [reflexivity | apply mkDb_eta].
Qed.

Lemma restore_without_wildcards_witness :
  no_meta "Milk" = true /\ has_nul "Milk" = false
  /\ restore_spec "Milk" db_milk_deleted.
Proof.
  split; [reflexivity|]. split; [reflexivity|].
  destruct (restore_without_wildcards "Milk" db_milk_deleted eq_refl)
    as [H _].
  apply (H eq_refl).
Defined.

(** C3 fails as worded: Restore("_") brings back the deleted row "buy milk",
    whose content has no underscore. *)
Lemma restore_underscore_counterexample : ~ restore_spec "_" db_milk_deleted.
Proof.
  intros [Ht _]. unfold restore_transitions in Ht.
  vm_compute in Ht. inversion Ht as [|? ? ? ? [_ Hst] _]. discriminate Hst.
Qed.

Lemma lower_char_is_meta (c : ascii) :
  (lower_char c =? "\")%char = (c =? "\")%char
  /\ (lower_char c =? "%")%char = (c =? "%")%char
  /\ (lower_char c =? "_")%char = (c =? "_")%char.
Proof.
  destruct c as [[] [] [] [] [] [] [] []]; vm_compute; repeat split.
Qed.

Lemma not_meta (c : ascii) :
  c <> "\"%char -> c <> "%"%char -> c <> "_"%char -> is_meta c = false.
Proof.
  intros H1 H2 H3. unfold is_meta.
  apply Ascii.eqb_neq in H1, H2, H3. now rewrite H1, H2, H3.
Qed.

(** Reading a pattern into tokens and matching them is matching the pattern
    as [Matches] says it, up to case. *)
Lemma like_match_Matches (n : nat) :
  forall p s ts,
    (String.length p <= n)%nat ->
    like_tokens (lower p) = Some ts ->
    like_match ts (lower s) = true <-> Matches p s.
Proof.
  assert (Hnil : forall s ts,
             like_tokens (lower "") = Some ts ->
             like_match ts (lower s) = true <-> Matches "" s).
  { intros s ts H. injection H as <-. destruct s; simpl.
    - split; [constructor | reflexivity].
    - split; [discriminate | intros H; inversion H]. }
  induction n as [|n IH]; intros p s ts Hn Htok.
  { destruct p; [now apply Hnil | simpl in Hn; lia]. }
  destruct p as [|c rest]; [now apply Hnil|].
  cbn [lower like_tokens] in Htok.
  destruct (lower_char_is_meta c) as (E1 & E2 & E3).
  rewrite E1, E2, E3 in Htok. simpl in Hn.
  destruct (Ascii.eqb_spec c "\") as [->|N1].
  - destruct rest as [|c' rest']; cbn [lower] in Htok; [discriminate|].
    unfold add_tok in Htok.
    destruct (like_tokens (lower rest')) as [ts'|] eqn:E; [|discriminate].
    injection Htok as <-. simpl in Hn.
    assert (IH' := fun s' => IH rest' s' ts' ltac:(lia) E).
    destruct s as [|d s']; cbn [lower like_match].
    + split; [discriminate | intros H; inversion H].
    + rewrite andb_true_iff, Ascii.eqb_eq, lower_char_same, IH'. split.
      * intros [H1 H2]. now constructor.
      * intros H. inversion H; subst; [now split | discriminate].
  - destruct (Ascii.eqb_spec c "%") as [->|N2].
    + unfold add_tok in Htok.
      destruct (like_tokens (lower rest)) as [ts'|] eqn:E; [|discriminate].
      injection Htok as <-.
      assert (IH' := fun s' => IH rest s' ts' ltac:(lia) E).
      rewrite like_match_any_iff. split.
      * intros (pre & post & Hs & Hm).
        apply lower_split in Hs as (s1 & s2 & -> & _ & <-).
        constructor. now apply IH'.
      * intros H. inversion H; subst; [|discriminate].
        exists (lower s1), (lower s2). split; [apply lower_append|].
        now apply IH'.
    + destruct (Ascii.eqb_spec c "_") as [->|N3].
      * unfold add_tok in Htok.
        destruct (like_tokens (lower rest)) as [ts'|] eqn:E; [|discriminate].
        injection Htok as <-.
        assert (IH' := fun s' => IH rest s' ts' ltac:(lia) E).
        destruct s as [|d s']; cbn [lower like_match].
        -- split; [discriminate | intros H; inversion H].
        -- rewrite IH'. split.
           ++ intros H. now constructor.
           ++ intros H. inversion H; subst; [assumption | discriminate].
      * unfold add_tok in Htok.
        destruct (like_tokens (lower rest)) as [ts'|] eqn:E; [|discriminate].
        injection Htok as <-.
        assert (IH' := fun s' => IH rest s' ts' ltac:(lia) E).
        destruct s as [|d s']; cbn [lower like_match].
        -- split; [discriminate|]. intros H. inversion H; congruence.
        -- rewrite andb_true_iff, Ascii.eqb_eq, lower_char_same, IH'. split.
           ++ intros [H1 H2]. apply matches_char; auto using not_meta.
           ++ intros H. inversion H; subst; try congruence. now split.
Qed.

(** * The match predicate *)

(** C6, as the statements behave: for every keyword [k] that holds no
    character of code 0 and every content [c], the predicate
    [c ILIKE `%k%`] of Delete, Restore and the text search never raises and
    holds exactly when [c] matches, up to case, the pattern [%k%] in which
    a [%] of [k] stands for any run of characters, a [_] for any one
    character and a backslash makes the character after it stand for
    itself; so, when [k] has none of these three characters, exactly when
    [k] occurs in [c] up to case. *)
Theorem match_is_like_pattern (k c : string) :
  has_nul k = false ->
  (exists b, keyword_ilike k c = Ok b /\ (b = true <-> Matches (pattern k) c))
  /\ (no_meta k = true ->
      match_is_containment k c /\ (ci_contains k c = true <-> ci_occurs k c)).
Proof.
  intros Hnul. split.
  - exists (keyword_match k c). split; [now apply keyword_ilike_total|].
    rewrite (keyword_match_text k c Hnul). unfold ilike.
    destruct (like_tokens_pattern k) as [ts E]. rewrite E.
    exact (like_match_Matches _ (pattern k) c (AnySeq :: ts) (le_n _) E).
  - intros Hk. split; [|apply ci_contains_occurs].
    unfold match_is_containment.
    rewrite <- (keyword_match_no_meta k c Hnul Hk).
    now apply keyword_ilike_total.
Qed.

Lemma match_is_like_pattern_witness :
  has_nul "MILK" = false /\ no_meta "MILK" = true
  /\ match_is_containment "MILK" "Buy milk".
Proof.
  split; [reflexivity|]. split; [reflexivity|].
  destruct (match_is_like_pattern "MILK" "Buy milk" eq_refl) as [_ H].
  apply (H eq_refl).
Defined.

(** C6 fails as worded: [%] and [_] in the keyword are wildcards.  The
    content "milk" holds neither character, and matches both keywords. *)
Lemma match_wildcards_counterexample :
  ~ match_is_containment "%" "milk" /\ ~ match_is_containment "_" "milk".
Proof. split; intros H; vm_compute in H; discriminate H. Qed.

(** * Search *)

Lemma rows_of_select_by_id (n : Z) (db : Db) :
  rows_of (select_by_id n db)
  = if (int4_min <=? n) && (n <=? int4_max)
    then filter (fun r => id r =? n) (todos db) else [].
Proof. rewrite select_by_id_eq. now destruct (_ && _). Qed.

(** C4, as the statement behaves: for every purely numeric query and every
    table whose primary key holds.  When the number the digits write is at
    most 2^31-1, Search resolves to the lookup by that id: the rows with
    that id, whatever their status, at most one.  When it is larger the
    database refuses it as an [integer]: Search throws. *)
Theorem search_numeric_by_id (q : string) (db : Db) :
  purely_numeric q = true ->
  pk_ok db ->
  (decimal q <= int4_max -> id_lookup q db)
  /\ (int4_max < decimal q ->
      searchTodo_res q db = (db, Fail integer_rejected)).
Proof.
  intros Hq (Hnd & _ & _).
  assert (E : searchTodo_res q db = select_by_id (decimal q) db).
  { unfold searchTodo_res. now rewrite (parseInt_purely_numeric q Hq). }
  assert (H0 : 0 <= decimal q).
  { apply decimal_from_nonneg; [|lia]. destruct q; [discriminate | exact Hq]. }
  split.
  - intros Hle. unfold id_lookup.
    exists (filter (fun r => id r =? decimal q) (todos db)).
    rewrite E, select_by_id_eq.
    replace (int4_min <=? decimal q) with true
      by (symmetry; apply Z.leb_le; unfold int4_min; lia).
    apply Z.leb_le in Hle. rewrite Hle. cbn [andb].
    split; [reflexivity|]. split.
    + intros r. rewrite filter_In, Z.eqb_eq. reflexivity.
    + now apply filter_id_at_most_one.
  - intros Hgt. rewrite E, select_by_id_eq.
    apply Z.leb_gt in Hgt. rewrite Hgt. now rewrite andb_false_r.
Qed.

Lemma search_numeric_by_id_witness :
  purely_numeric "1" = true /\ id_lookup "1" db_milk_deleted.
Proof.
  split; [reflexivity|].
  assert (Hpk : pk_ok db_milk_deleted).
  { change db_milk_deleted with (mkDb [mkTodo 1 "buy milk" deleted] 2).
    unfold pk_ok. cbn [todos todos_id_seq map id].
    split; [|split; [|lia]]; repeat constructor; simpl; try tauto; lia. }
  destruct (search_numeric_by_id "1" db_milk_deleted eq_refl Hpk) as [H _].
  apply H. vm_compute. discriminate.
Defined.

(** C4 fails as worded: 2147483648 is purely numeric, and Search with it
    returns no lookup at all, the database refusing the number. *)
Lemma search_too_large_counterexample :
  purely_numeric "2147483648" = true /\ ~ id_lookup "2147483648" db_milk.
Proof.
  split; [reflexivity|]. intros (rs & H & _). vm_compute in H. discriminate H.
Qed.

(** C5, as the statement behaves: for every query that [parseInt] does not
    read as a number.  When the query holds no character of code 0, Search
    resolves, on every table, to rows that are all active, namely the
    active rows that match the query; when there is none the result is
    empty and the tool answers "No todos found.".  When the query holds the
    character of code 0 the database refuses it: Search throws, whatever
    the table holds. *)
Theorem search_text_active_only (q : string) (db : Db) :
  Js.parseInt q = None ->
  (has_nul q = false ->
   active_only_search q db
   /\ (forall r, In r (rows_of (searchTodo_res q db))
                 <-> In r (todos db) /\ active_matching q r = true))
  /\ (has_nul q = true ->
      searchTodo_res q db = (db, Fail invalid_byte_sequence)).
Proof.
  intros Hq. unfold active_only_search, searchTodo, reply, searchTodo_res.
  rewrite Hq. split.
  - intros Hnul. rewrite (select_active_like_eq q db Hnul). split.
    + exists (filter (active_matching q) (todos db)).
      split; [reflexivity|]. split.
      * apply Forall_forall. intros r Hr. apply filter_In in Hr as [_ Hr].
        unfold active_matching in Hr. apply andb_true_iff in Hr as [_ Hr].
        now apply is_active_iff.
      * intros Hnone. unfold listing. cbn [rows].
        now rewrite (filter_none _ _ Hnone).
    + intros r. unfold rows_of. cbn [snd rows]. apply filter_In.
  - apply select_active_like_nul.
Qed.

Lemma search_text_active_only_witness :
  Js.parseInt "milk" = None /\ has_nul "milk" = false
  /\ active_only_search "milk" db_milk_deleted.
Proof.
  split; [reflexivity|]. split; [reflexivity|].
  destruct (search_text_active_only "milk" db_milk_deleted eq_refl) as [H _].
  apply (H eq_refl).
Defined.

(** C5 fails as worded: the query made of the character of code 0 is no
    number and matches no row, and Search with it does not return an empty
    result: it throws. *)
Lemma search_nul_counterexample :
  Js.parseInt nul = None
  /\ searchTodo_res nul db_milk = (db_milk, Fail invalid_byte_sequence)
  /\ ~ active_only_search nul db_milk.
Proof.
  split; [reflexivity|]. split; [reflexivity|].
  intros (rs & H & _). vm_compute in H. discriminate H.
Qed.

(** C10: for every query that [parseInt] reads as the number [n], whatever
    follows the digits, Search is the lookup by id [n] and nothing else: its
    rows are the rows with that id when [n] fits an [integer], and none
    otherwise; no condition on [content] takes part. *)
Theorem search_integer_prefix_by_id (q : string) (n : Z) (db : Db) :
  Js.parseInt q = Some n ->
  searchTodo_res q db = select_by_id n db
  /\ rows_of (searchTodo_res q db)
     = (if (int4_min <=? n) && (n <=? int4_max)
        then filter (fun r => id r =? n) (todos db) else [])
  /\ (forall r, In r (rows_of (searchTodo_res q db)) -> id r = n).
Proof.
  intros Hq.
  assert (E : searchTodo_res q db = select_by_id n db)
    by (unfold searchTodo_res; now rewrite Hq).
  rewrite E, rows_of_select_by_id. split; [reflexivity|].
  split; [reflexivity|].
  intros r Hr. destruct (_ && _); [|contradiction].
  apply filter_In in Hr as [_ Hr]. now apply Z.eqb_eq.
Qed.

Lemma search_integer_prefix_by_id_witness :
  Js.parseInt "1 apples" = Some 1
  /\ rows_of (searchTodo_res "1 apples" db_milk_deleted)
     = [mkTodo 1 "buy milk" deleted].
Proof.
  split; [reflexivity|].
  destruct (search_integer_prefix_by_id "1 apples" 1 db_milk_deleted eq_refl)
    as (_ & H & _).
  rewrite H. reflexivity.
Defined.

(** Queries that begin with digits, and a neighbour that is not a number. *)
Example parseInt_3_apples : Js.parseInt "3 apples" = Some 3.
Proof. reflexivity. Qed.

Example parseInt_12_Main_St : Js.parseInt "12 Main St" = Some 12.
Proof. reflexivity. Qed.

Example parseInt_0x : Js.parseInt "0x apples" = None.
Proof. reflexivity. Qed.

(** * List *)

Lemma listing_all_eq (db : Db) : listing_all db = order_by_id_desc (todos db).
Proof. reflexivity. Qed.

Lemma listing_active_eq (db : Db) :
  listing_active db = order_by_id_desc (filter is_active (todos db)).
Proof. reflexivity. Qed.

Lemma listing_active_filter (db : Db) :
  listing_active db = filter is_active (listing_all db).
Proof.
  rewrite listing_active_eq, listing_all_eq.
  symmetry. apply filter_order_by_id_desc.
Qed.

(** C7, as the statements behave: for every table, List(showAll=false) is
    List(showAll=true) filtered to the active rows, hence a subset of it,
    and a strict one exactly when the table holds a deleted row; both
    listings are in descending order of id, and List(showAll=true) holds
    every row of the table. *)
Theorem list_active_is_filtered_list_all (db : Db) :
  listing_active db = filter is_active (listing_all db)
  /\ incl (listing_active db) (listing_all db)
  /\ (strict_subset (listing_active db) (listing_all db)
      <-> exists r, In r (todos db) /\ status r = deleted)
  /\ desc_by_id (listing_all db)
  /\ desc_by_id (listing_active db)
  /\ Permutation (todos db) (listing_all db).
Proof.
  pose proof (listing_active_filter db) as Hf.
  pose proof (order_by_id_desc_perm (todos db)) as Hp.
  rewrite <- listing_all_eq in Hp.
  assert (Hincl : incl (listing_active db) (listing_all db)).
  { rewrite Hf. intros r Hr. now apply filter_In in Hr. }
  split; [exact Hf|]. split; [exact Hincl|]. split; [split|].
  - intros (_ & r & Hr & Hnot). exists r. split.
    + eapply Permutation_in; [symmetry; exact Hp | exact Hr].
    + destruct (status_cases r) as [(Ha & _ & _) | (_ & _ & Hd)];
        [|exact Hd].
      exfalso. apply Hnot. rewrite Hf. apply filter_In. now split.
  - intros (r & Hr & Hd). split; [exact Hincl|]. exists r. split.
    + eapply Permutation_in; [exact Hp | exact Hr].
    + rewrite Hf. intros Hin. apply filter_In in Hin as [_ Ha].
      apply is_active_iff in Ha. congruence.
  - split; [|split]; [| |exact Hp]; apply order_by_id_desc_sorted.
Qed.

(** C7 fails as worded: with no deleted row the two listings are the same,
    so the first is not a strict subset of the second. *)
Lemma list_not_strict_counterexample :
  listing_active db_milk = listing_all db_milk
  /\ ~ strict_subset (listing_active db_milk) (listing_all db_milk).
Proof.
  split; [reflexivity|].
  intros (_ & r & Hr & Hnot). apply Hnot. exact Hr.
Qed.

(** * Add *)

(** C8, as the statement behaves: a content may be empty.  On a table
    whose primary key holds and whose sequence has not passed 2^31-1, Add
    accepts every content string that holds no character of code 0, the
    empty one included: it resolves and appends one active row that carries
    the next id and the content as given. *)
Theorem add_stores_text_content (c : string) (db : Db) :
  has_nul c = false ->
  pk_ok db ->
  todos_id_seq db <= int4_max ->
  addTodo_res c db
  = (mkDb (todos db ++ [mkTodo (todos_id_seq db) c active])
          (todos_id_seq db + 1),
     Ok (mkResult [] 1))
  /\ In (mkTodo (todos_id_seq db) c active) (todos (after (add_todo c) db)).
Proof.
  intros Hc Hpk Hseq. rewrite after_add, addTodo_res_eq by assumption.
  split; [reflexivity|]. cbn [fst todos]. apply in_or_app. right. now left.
Qed.

Lemma add_stores_text_content_witness :
  In (mkTodo 2 "" active) (todos (after (add_todo "") db_milk)).
Proof.
  apply (add_stores_text_content "" db_milk).
  - reflexivity.
  - change db_milk with (mkDb [mkTodo 1 "buy milk" active] 2).
    unfold pk_ok. cbn [todos todos_id_seq map id].
    split; [|split; [|lia]]; repeat constructor; simpl; try tauto; lia.
  - vm_compute. discriminate.
Defined.

(** C8 fails as worded: after an Add of the empty string on the fresh
    table, a reachable table holds a row with empty content. *)
Lemma add_empty_counterexample :
  reachable (after (add_todo "") empty_db)
  /\ ~ nonempty_contents (after (add_todo "") empty_db).
Proof.
  split; [apply reach_call, reach_empty|].
  intros H. vm_compute in H. inversion H as [|? ? Hne _]. now apply Hne.
Qed.

(** * Rows are never removed *)

Lemma same_rows_refl (l : list Todo) : Forall2 same_row l l.
Proof.
  rewrite <- (map_id l) at 2. apply Forall2_map_r. now split.
Qed.

Lemma after_keeps_rows (c : Call) (db : Db) :
  exists kept added : list Todo,
    todos (after c db) = (kept ++ added)%list
    /\ Forall2 same_row (todos db) kept.
Proof.
  pose proof (same_rows_refl (todos db)) as Hsame.
  destruct c as [c|k|q|k|b].
  - rewrite after_add. unfold addTodo_res, textin, nextval.
    destruct (has_nul c); cbn [fst];
      [exists (todos db), []; now rewrite app_nil_r|].
    destruct (todos_id_seq db <=? int4_max); cbn [todos todos_id_seq fst].
    + destruct (existsb _ _); cbn [fst todos].
      * exists (todos db), []. now rewrite app_nil_r.
      * now exists (todos db), [mkTodo (todos_id_seq db) c active].
    + exists (todos db), []. now rewrite app_nil_r.
  - rewrite after_delete. cbn [todos].
    exists (map (mark (matching k) deleted) (todos db)), [].
    rewrite app_nil_r. split; [reflexivity | apply map_mark_same_rows].
  - rewrite after_search. exists (todos db), []. now rewrite app_nil_r.
  - rewrite after_restore. cbn [todos].
    exists (map (mark (deleted_matching k) active) (todos db)), [].
    rewrite app_nil_r. split; [reflexivity | apply map_mark_same_rows].
  - rewrite after_read. exists (todos db), []. now rewrite app_nil_r.
Qed.

(** C9: for every call of every tool on every table, each row of the table
    is still there after the call, at its place, with the id and the content
    it had; Search and List leave the whole table as it was. *)
Theorem rows_persist (c : Call) (db : Db) :
  (exists kept added : list Todo,
      todos (after c db) = (kept ++ added)%list
      /\ Forall2 same_row (todos db) kept)
  /\ (forall q, after (search_todo q) db = db)
  /\ (forall b, after (read_todo b) db = db).
Proof.
  split; [apply after_keeps_rows|].
  split; intros; [apply after_search | apply after_read].
Qed.

(** The same over any sequence of calls: the rows a table holds stay, in
    place, with their id and content. *)
Lemma same_row_trans (a b c : Todo) :
  same_row a b -> same_row b c -> same_row a c.
Proof. unfold same_row. intros [-> ->] [-> ->]. now split. Qed.

Lemma Forall2_same_row_grow (l kept added l2 : list Todo) :
  Forall2 same_row l kept ->
  (exists kept2 added2 : list Todo,
      l2 = (kept2 ++ added2)%list
      /\ Forall2 same_row (kept ++ added)%list kept2) ->
  exists kept' added' : list Todo,
    l2 = (kept' ++ added')%list /\ Forall2 same_row l kept'.
Proof.
  intros H1 (kept2 & added2 & -> & H2).
  apply Forall2_app_inv_l in H2 as (k1 & k2 & Hk1 & _ & ->).
  exists k1, (k2 ++ added2)%list. split; [now rewrite app_assoc|].
  clear - H1 Hk1. revert k1 Hk1.
  induction H1 as [|a b l kept Hab _ IH]; intros k1 Hk1.
  - inversion Hk1. constructor.
  - inversion Hk1 as [|? c ? k1' Hbc Hrest]; subst.
    constructor; [eapply same_row_trans; eauto | now apply IH].
Qed.

Lemma rows_persist_all (cs : list Call) (db : Db) :
  exists kept added : list Todo,
    todos (after_all cs db) = (kept ++ added)%list
    /\ Forall2 same_row (todos db) kept.
Proof.
  revert db. induction cs as [|c cs IH]; intros db.
  - exists (todos db), []. rewrite app_nil_r.
    split; [reflexivity | apply same_rows_refl].
  - cbn [after_all fold_left].
    destruct (after_keeps_rows c db) as (kept & added & E & Hk).
    eapply Forall2_same_row_grow; [exact Hk|].
    rewrite <- E. apply IH.
Qed.

(** * The scenario of the specification, run on the model *)

Example scenario_buy_milk :
  snd (readTodo false db_milk) = Ok "#1 - buy milk [active]"
  /\ snd (deleteTodo "milk" db_milk) = Ok "Deleted 1 item(s)"
  /\ snd (readTodo false db_milk_deleted) = Ok "No todos found."
  /\ snd (readTodo true db_milk_deleted) = Ok "#1 - buy milk [deleted]"
  /\ snd (restoreTodo "milk" db_milk_deleted) = Ok "Restored 1 item(s)"
  /\ snd (readTodo false (after (restore_todo "milk") db_milk_deleted))
     = Ok "#1 - buy milk [active]".
Proof. repeat split; vm_compute; reflexivity. Qed.

(** * More on the keyword statements *)

(** X1: a keyword is accepted exactly when it holds no character of code
    0.  For such a keyword, a trailing backslash included, the pattern
    [`%${keyword}%`] is a well-formed LIKE pattern: the condition never
    raises, and Delete, Restore and the text search resolve.  For a keyword
    that holds the character of code 0 the three of them throw and leave
    the database as it was. *)
Theorem keyword_statements_resolve (k : string) (db : Db) :
  (has_nul k = false ->
   (forall c, exists b, keyword_ilike k c = Ok b)
   /\ resolved (deleteTodo_res k db) = true
   /\ resolved (restoreTodo_res k db) = true
   /\ resolved (select_active_like k db) = true)
  /\ (has_nul k = true ->
      deleteTodo_res k db = (db, Fail invalid_byte_sequence)
      /\ restoreTodo_res k db = (db, Fail invalid_byte_sequence)
      /\ select_active_like k db = (db, Fail invalid_byte_sequence)).
Proof.
  split; intros H.
  - split; [|split; [|split]].
    + intros c. exists (keyword_match k c). now apply keyword_ilike_total.
    + now rewrite deleteTodo_res_eq.
    + now rewrite restoreTodo_res_eq.
    + now rewrite select_active_like_eq.
  - split; [|split].
    + now apply deleteTodo_res_nul.
    + now apply restoreTodo_res_nul.
    + now apply select_active_like_nul.
Qed.

Lemma keyword_statements_resolve_witness :
  resolved (deleteTodo_res "50\" db_milk) = true
  /\ deleteTodo_res nul db_milk = (db_milk, Fail invalid_byte_sequence).
Proof.
  destruct (keyword_statements_resolve "50\" db_milk) as [H _].
  destruct (keyword_statements_resolve nul db_milk) as [_ H'].
  split; [apply (H eq_refl) | apply (H' eq_refl)].
Defined.

Lemma matching_iff (k : string) (r : Todo) (b : bool) :
  has_nul k = false -> content_ilike k r = Ok b <-> matching k r = b.
Proof.
  intros H. rewrite (content_ilike_total k r H). split; congruence.
Qed.


Lemma matching_mark (k : string) (f : Todo -> bool) (s : Status) (r : Todo) :
  matching k (mark f s r) = matching k r.
Proof. unfold mark, matching. now destruct (f r). Qed.

(** X3: a Delete repeated with the same keyword changes nothing more, and
    reports the same count as the first. *)
Theorem delete_idempotent (k : string) (db : Db) :
  after (delete_todo k) (after (delete_todo k) db) = after (delete_todo k) db
  /\ count_of (deleteTodo_res k (after (delete_todo k) db))
     = count_of (deleteTodo_res k db).
Proof.
  split; [|apply delete_again_same_count].
  rewrite !after_delete. cbn [todos todos_id_seq]. f_equal.
  rewrite map_map. apply map_ext. intros r.
  unfold mark at 1. rewrite matching_mark. unfold mark.
  now destruct (matching k r).
Qed.







(** * Keywords that are patterns *)

Lemma all_percent_lower (k : string) : all_percent k = true -> lower k = k.
Proof.
  induction k as [|c k IH]; simpl; intros H; [reflexivity|].
  apply andb_true_iff in H as [Hc Hk]. apply Ascii.eqb_eq in Hc. subst c.
  now rewrite (IH Hk).
Qed.

Lemma all_percent_tokens (s : string) :
  all_percent s = true -> like_tokens s = Some (percents s).
Proof.
  induction s as [|c s IH]; simpl; intros H; [reflexivity|].
  apply andb_true_iff in H as [Hc Hs]. apply Ascii.eqb_eq in Hc. subst c.
  simpl. now rewrite (IH Hs).
Qed.

Lemma like_match_percents (s t : string) :
  like_match (AnySeq :: percents s) t = true.
Proof.
  induction s as [|c s IH]; simpl percents.
  - apply like_match_trailing_any.
  - apply like_match_any_iff. now exists "", t.
Qed.

Lemma all_percent_pattern (k : string) :
  all_percent k = true -> all_percent (k ++ "%") = true.
Proof.
  induction k as [|c k IH]; simpl; intros H; [reflexivity|].
  apply andb_true_iff in H as [-> Hk]. now apply IH.
Qed.

Lemma all_percent_text (k : string) :
  all_percent k = true -> has_nul k = false.
Proof.
  induction k as [|c k IH]; simpl; intros H; [reflexivity|].
  apply andb_true_iff in H as [Hc Hk]. apply Ascii.eqb_eq in Hc. subst c.
  now apply IH.
Qed.

Lemma all_percent_match (k c : string) :
  all_percent k = true -> keyword_match k c = true.
Proof.
  intros Hk. rewrite (keyword_match_text k c (all_percent_text k Hk)).
  unfold ilike.
  rewrite lower_pattern, (all_percent_lower k Hk). unfold pattern.
  change ("%" ++ k ++ "%") with (String "%" (k ++ "%")).
  rewrite (all_percent_tokens (String "%" (k ++ "%")))
    by (simpl; now apply all_percent_pattern).
  apply like_match_percents.
Qed.

Lemma all_percent_parseInt (k : string) :
  all_percent k = true -> Js.parseInt k = None.
Proof.
  destruct k as [|c k]; [reflexivity|]. simpl. intros H.
  apply andb_true_iff in H as [Hc _]. apply Ascii.eqb_eq in Hc. subst c.
  now destruct k.
Qed.

Lemma filter_all {A : Type} (f : A -> bool) (l : list A) :
  (forall x, In x l -> f x = true) -> filter f l = l.
Proof.
  induction l as [|x l IH]; simpl; intros H; [reflexivity|].
  rewrite (H x) by auto. f_equal. apply IH. auto.
Qed.

(** X6: a keyword made of [%] only, the empty keyword among them, matches
    every content.  Delete with it leaves every row of the table deleted and
    counts them all, and Search with it returns every active row. *)
Theorem percent_keyword_matches_every_row (k : string) (db : Db) :
  all_percent k = true ->
  (forall r, content_ilike k r = Ok true)
  /\ table_after (deleteTodo_res k db) = map (set_status deleted) (todos db)
  /\ count_of (deleteTodo_res k db) = List.length (todos db)
  /\ rows_of (searchTodo_res k db) = filter is_active (todos db).
Proof.
  intros Hk.
  assert (Hm : forall r, matching k r = true)
    by (intros r; now apply all_percent_match).
  split; [|split; [|split]].
  - intros r. now apply matching_iff; [apply all_percent_text|].
  - unfold table_after. rewrite fst_deleteTodo_res. cbn [todos].
    apply map_ext. intros r. unfold mark. now rewrite Hm.
  - rewrite count_of_deleteTodo_res. now rewrite filter_all.
  - unfold searchTodo_res. rewrite (all_percent_parseInt k Hk).
    rewrite rows_of_select_active_like.
    apply filter_ext. intros r. unfold active_matching. now rewrite Hm.
Qed.

Lemma percent_keyword_matches_every_row_witness :
  count_of (deleteTodo_res "" db_milk_deleted) = 1%nat.
Proof.
  destruct (percent_keyword_matches_every_row "" db_milk_deleted eq_refl)
    as (_ & _ & H & _).
  rewrite H. reflexivity.
Defined.

Lemma like_match_ends (k s : string) :
  like_match (AnySeq :: lits k ++ [Lit "%"%char]) s = true
  <-> ends_with (k ++ "%") s.
Proof.
  rewrite like_match_any_iff. unfold ends_with. split.
  - intros (pre & post & -> & H).
    apply like_match_lits in H as (rest & -> & H). exists pre.
    destruct rest as [|d rest]; [discriminate|]. cbn [like_match] in H.
    apply andb_true_iff in H as [Hd H]. apply Ascii.eqb_eq in Hd. subst d.
    destruct rest; [reflexivity | discriminate].
  - intros (pre & ->). exists pre, (k ++ "%"). split; [reflexivity|].
    apply like_match_lits. exists "%". split; reflexivity.
Qed.

(** X7: a backslash at the end of the keyword escapes the [%] that closes
    the pattern.  For [k] without [%], [_], backslash and the character of
    code 0, the keyword [k] followed by one backslash matches exactly the
    contents that end, up to case, with [k] followed by a percent sign. *)
Theorem trailing_backslash_keyword (k : string) (r : Todo) :
  has_nul k = false ->
  no_meta k = true ->
  content_ilike (k ++ "\") r = Ok true
  <-> ci_ends_with (k ++ "%") (content r).
Proof.
  intros Hnul Hk.
  assert (Hnul' : has_nul (k ++ "\") = false)
    by (rewrite has_nul_append, Hnul; reflexivity).
  rewrite (matching_iff _ r true Hnul'). unfold matching.
  rewrite (keyword_match_text _ _ Hnul'), ci_ends_with_lower, lower_append.
  change (lower "%") with "%". unfold ilike.
  rewrite lower_pattern, lower_append. unfold pattern.
  change (lower "\") with "\".
  change ("%" ++ (lower k ++ "\") ++ "%")
    with (String "%" ((lower k ++ "\") ++ "%")).
  rewrite append_assoc. cbn [like_tokens]. simpl (_ =? _)%char. cbv iota.
  rewrite like_tokens_no_meta by now rewrite lower_no_meta.
  cbn [append like_tokens]. simpl (_ =? _)%char. cbv iota.
  cbn [add_tok option_map app].
  change (like_match (AnySeq :: lits (lower k) ++ [Lit "%"%char])
            (lower (content r)) = true
          <-> ends_with (lower k ++ "%") (lower (content r))).
  apply like_match_ends.
Qed.

Lemma trailing_backslash_keyword_witness :
  content_ilike "50\" (mkTodo 1 "Save 50%" active) = Ok true.
Proof.
  apply (trailing_backslash_keyword "50" (mkTodo 1 "Save 50%" active)).
  - reflexivity.
  - reflexivity.
  - exists "Save ", "50%". split; reflexivity.
Defined.

(** * What the tools answer *)

Lemma listing_none (res : Result) :
  listing res = "No todos found." <-> rows res = [].
Proof.
  unfold listing. destruct (rows res) as [|r l]; simpl.
  - tauto.
  - split; [|discriminate]. destruct l; simpl; discriminate.
Qed.

Lemma order_by_id_desc_nil (l : list Todo) :
  order_by_id_desc l = [] <-> l = [].
Proof.
  split; [|now intros ->]. intros H.
  apply Permutation_nil. rewrite <- H. symmetry.
  apply order_by_id_desc_perm.
Qed.

Lemma filter_nil_iff {A : Type} (f : A -> bool) (l : list A) :
  filter f l = [] <-> forall x, In x l -> f x = false.
Proof.
  split; [|apply filter_none].
  induction l as [|x l IH]; simpl; [tauto|].
  destruct (f x) eqn:E; [discriminate|].
  intros H y [<-|Hy]; auto.
Qed.

(** X8: List with [showAll] answers "No todos found." exactly when the table
    is empty, and without it exactly when the table holds no active row. *)
Theorem read_answers_none (db : Db) :
  (snd (readTodo true db) = Ok "No todos found." <-> todos db = [])
  /\ (snd (readTodo false db) = Ok "No todos found."
      <-> forall r, In r (todos db) -> status r = deleted).
Proof.
  unfold readTodo, reply, readTodo_res. cbn [snd]. split.
  - split.
    + intros H. injection H as H. apply listing_none in H. cbn [rows] in H.
      now apply order_by_id_desc_nil.
    + intros ->. reflexivity.
  - split.
    + intros H. injection H as H. apply listing_none in H. cbn [rows] in H.
      apply (proj1 (order_by_id_desc_nil _)) in H. intros r Hr.
      pose proof (proj1 (filter_nil_iff _ _) H r Hr) as Ha.
      destruct (status_cases r) as [(E & _) | (_ & _ & E)]; congruence.
    + intros H. f_equal. apply listing_none. cbn [rows].
      apply order_by_id_desc_nil, filter_nil_iff. intros r Hr.
      unfold is_active. now rewrite (H r Hr).
Qed.

(** X9: for a keyword that holds no character of code 0, Delete answers
    "No matching todos found." exactly when no row of the table matches the
    keyword, and Restore answers "No deleted todos matched." exactly when no
    deleted row matches; in every other case the answer carries the
    count. *)
Theorem delete_restore_answers (k : string) (db : Db) :
  has_nul k = false ->
  (snd (deleteTodo k db) = Ok "No matching todos found."
   <-> forall r, In r (todos db) -> matching k r = false)
  /\ (snd (restoreTodo k db) = Ok "No deleted todos matched."
      <-> forall r, In r (todos db) -> deleted_matching k r = false)
  /\ (count_of (deleteTodo_res k db) <> 0%nat ->
      snd (deleteTodo k db)
      = Ok ("Deleted " ++ count_text (count_of (deleteTodo_res k db))
                       ++ " item(s)"))
  /\ (count_of (restoreTodo_res k db) <> 0%nat ->
      snd (restoreTodo k db)
      = Ok ("Restored " ++ count_text (count_of (restoreTodo_res k db))
                        ++ " item(s)")).
Proof.
  intros Hnul. unfold deleteTodo, restoreTodo, reply.
  rewrite (deleteTodo_res_eq k db Hnul), (restoreTodo_res_eq k db Hnul).
  unfold count_of. cbn [snd rowCount].
  rewrite <- !filter_nil_iff.
  split; [|split; [|split]].
  - destruct (filter (matching k) (todos db)); simpl.
    + tauto.
    + split; discriminate.
  - destruct (filter (deleted_matching k) (todos db)); simpl.
    + tauto.
    + split; discriminate.
  - destruct (filter (matching k) (todos db)); simpl;
      [congruence | reflexivity].
  - destruct (filter (deleted_matching k) (todos db)); simpl;
      [congruence | reflexivity].
Qed.

Lemma delete_restore_answers_witness :
  snd (deleteTodo "milk" db_milk) = Ok "Deleted 1 item(s)".
Proof.
  destruct (delete_restore_answers "milk" db_milk eq_refl)
    as (_ & _ & H & _).
  rewrite H; [reflexivity | vm_compute; discriminate].
Defined.

(** * Printing a number and reading it back *)

Lemma string_of_uint_digits (d : Decimal.uint) :
  all_digits (NilEmpty.string_of_uint d) = true.
Proof. induction d; simpl; auto. Qed.

Lemma decimal_from_uint (d : Decimal.uint) (acc : Z) :
  decimal_from acc (NilEmpty.string_of_uint d) = uint_value acc d.
Proof.
  revert acc.
  induction d as [|d IH|d IH|d IH|d IH|d IH|d IH|d IH|d IH|d IH|d IH];
    intros acc; cbn [NilEmpty.string_of_uint decimal_from uint_value];
    [reflexivity | exact (IH _) ..].
Qed.

Lemma uint_value_of_lu (d d' : Decimal.uint) :
  Z.of_N (DecimalPos.Unsigned.of_lu (Decimal.revapp d d'))
  = uint_value (Z.of_N (DecimalPos.Unsigned.of_lu d')) d.
Proof.
  revert d'.
  induction d as [|d IH|d IH|d IH|d IH|d IH|d IH|d IH|d IH|d IH|d IH];
    intros d'; cbn [Decimal.revapp uint_value]; [reflexivity | ..];
    rewrite IH; f_equal; cbn [DecimalPos.Unsigned.of_lu]; lia.
Qed.

Lemma uint_value_to_uint (p : positive) :
  uint_value 0 (Pos.to_uint p) = Z.pos p.
Proof.
  pose proof (DecimalPos.Unsigned.of_to p) as H.
  rewrite DecimalPos.Unsigned.of_uint_alt in H. unfold Decimal.rev in H.
  change 0 with (Z.of_N (DecimalPos.Unsigned.of_lu Decimal.Nil)).
  rewrite <- uint_value_of_lu, H. reflexivity.
Qed.

Lemma toString_pos (p : positive) :
  Js.toString (Z.pos p) = NilEmpty.string_of_uint (Pos.to_uint p)
  /\ purely_numeric (Js.toString (Z.pos p)) = true.
Proof.
  unfold Js.toString. cbn [Z.to_int NilZero.string_of_int].
  pose proof (DecimalPos.Unsigned.to_uint_nonnil p) as Hnil.
  pose proof (string_of_uint_digits (Pos.to_uint p)) as Hd.
  unfold NilZero.string_of_uint.
  destruct (Pos.to_uint p) eqn:E; [contradiction | ..];
    (split; [reflexivity | exact Hd]).
Qed.

(** The text [`${n}`] of a number that is not negative reads back, through
    [parseInt], as that number. *)
Lemma parseInt_toString (n : Z) :
  0 <= n -> Js.parseInt (Js.toString n) = Some n.
Proof.
  intros Hn. destruct n as [|p|p]; [reflexivity | | lia].
  destruct (toString_pos p) as [E Hnum].
  rewrite (parseInt_purely_numeric _ Hnum). f_equal.
  rewrite E. unfold decimal. rewrite decimal_from_uint.
  apply uint_value_to_uint.
Qed.

(** * What every reachable table satisfies *)

Lemma asc_by_id_ids (l : list Todo) :
  asc_by_id l <-> StronglySorted Z.lt (map id l).
Proof.
  unfold asc_by_id. induction l as [|r l IH]; simpl.
  - split; constructor.
  - split; intros H; inversion H as [|? ? Hl Hr]; subst; constructor.
    + now apply IH.
    + exact (proj2 (Forall_map id (Z.lt (id r)) l) Hr).
    + now apply IH.
    + exact (proj1 (Forall_map id (Z.lt (id r)) l) Hr).
Qed.

Lemma asc_by_id_snoc (l : list Todo) (r : Todo) :
  asc_by_id l -> Forall (fun x => id x < id r) l -> asc_by_id (l ++ [r]).
Proof.
  unfold asc_by_id. induction 1 as [|x l Hl IH Hx]; intros Hr; simpl.
  - repeat constructor.
  - inversion Hr as [|? ? Hxr Hlr]; subst. constructor; [now apply IH|].
    apply Forall_app. split; [exact Hx | now repeat constructor].
Qed.

Lemma asc_by_id_filter (p : Todo -> bool) (l : list Todo) :
  asc_by_id l -> asc_by_id (filter p l).
Proof.
  unfold asc_by_id. induction 1 as [|x l Hl IH Hx]; simpl; [constructor|].
  destruct (p x); [|exact IH]. constructor; [exact IH|].
  now apply filter_Forall.
Qed.

Lemma asc_after (c : Call) (db : Db) :
  pk_ok db -> asc_by_id (todos db) -> asc_by_id (todos (after c db)).
Proof.
  intros Hpk Hasc. destruct c as [c|k|q|k|b].
  - destruct (after_add_cases c db Hpk) as [->|(_ & Hle & ->)];
      [exact Hasc|].
    cbn [todos]. apply asc_by_id_snoc; [exact Hasc|].
    destruct Hpk as (_ & Hids & _).
    eapply Forall_impl; [|exact Hids]. simpl. intros; lia.
  - rewrite after_delete. cbn [todos].
    apply asc_by_id_ids. rewrite map_mark_ids. now apply asc_by_id_ids.
  - now rewrite after_search.
  - rewrite after_restore. cbn [todos].
    apply asc_by_id_ids. rewrite map_mark_ids. now apply asc_by_id_ids.
  - now rewrite after_read.
Qed.

Lemma seq_after (c : Call) (db : Db) :
  pk_ok db ->
  todos_id_seq db <= int4_max + 1 ->
  todos_id_seq (after c db) <= int4_max + 1.
Proof.
  intros Hpk H. destruct c as [c|k|q|k|b].
  - destruct (after_add_cases c db Hpk) as [->|(_ & Hle & ->)];
      [exact H|]. cbn [todos_id_seq]. lia.
  - now rewrite after_delete.
  - now rewrite after_search.
  - now rewrite after_restore.
  - now rewrite after_read.
Qed.

Lemma text_after (c : Call) (db : Db) :
  pk_ok db -> contents_are_text db -> contents_are_text (after c db).
Proof.
  unfold contents_are_text. intros Hpk H. destruct c as [c|k|q|k|b].
  - destruct (after_add_cases c db Hpk) as [->|(Hc & _ & ->)]; [exact H|].
    cbn [todos]. apply Forall_app. split; [exact H|]. now repeat constructor.
  - rewrite after_delete. cbn [todos]. apply Forall_map.
    eapply Forall_impl; [|exact H].
    intros r. unfold mark. now destruct (matching k r).
  - now rewrite after_search.
  - rewrite after_restore. cbn [todos]. apply Forall_map.
    eapply Forall_impl; [|exact H].
    intros r. unfold mark. now destruct (deleted_matching k r).
  - now rewrite after_read.
Qed.

Lemma reachable_keeps (db : Db) :
  reachable db ->
  pk_ok db /\ asc_by_id (todos db) /\ todos_id_seq db <= int4_max + 1.
Proof.
  induction 1 as [|c db _ (Hpk & Hasc & Hseq)].
  - split; [apply pk_ok_empty|]. split; [constructor|].
    vm_compute. discriminate.
  - split; [now apply pk_ok_after|].
    split; [now apply asc_after | now apply seq_after].
Qed.

Lemma reachable_text (db : Db) : reachable db -> contents_are_text db.
Proof.
  induction 1 as [|c db Hreach IH]; [constructor|].
  apply text_after; [|exact IH]. now apply reachable_keeps.
Qed.

(** X10: every table the tools can produce from the fresh one keeps the
    primary key and the sequence in order, and holds texts only: ids are
    pairwise distinct, at least 1, below the next value of the sequence and
    within [integer], the sequence has not passed 2^31, and no content
    holds the character of code 0. *)
Theorem reachable_invariant (db : Db) :
  reachable db ->
  pk_ok db
  /\ todos_id_seq db <= int4_max + 1
  /\ Forall (fun r => 1 <= id r <= int4_max) (todos db)
  /\ contents_are_text db.
Proof.
  intros Hreach.
  destruct (reachable_keeps db Hreach) as (Hpk & _ & Hseq).
  split; [exact Hpk|]. split; [exact Hseq|].
  split; [|now apply reachable_text].
  destruct Hpk as (_ & Hids & _).
  eapply Forall_impl; [|exact Hids]. simpl. intros; lia.
Qed.

Lemma reachable_invariant_witness :
  pk_ok (after (add_todo "eggs") db_milk_deleted).
Proof.
  apply (reachable_invariant (after (add_todo "eggs") db_milk_deleted)).
  repeat apply reach_call. apply reach_empty.
Defined.

(** * Listings in reverse order of insertion *)

Lemma insert_desc_last (r : Todo) (l : list Todo) :
  Forall (fun x => id r < id x) l -> insert_desc r l = (l ++ [r])%list.
Proof.
  induction 1 as [|x l Hx _ IH]; simpl; [reflexivity|].
  apply Z.leb_gt in Hx. now rewrite Hx, IH.
Qed.

Lemma order_by_id_desc_asc (l : list Todo) :
  asc_by_id l -> order_by_id_desc l = rev l.
Proof.
  unfold asc_by_id. induction 1 as [|r l Hl IH Hr]; simpl; [reflexivity|].
  rewrite IH. apply insert_desc_last. now apply Forall_rev.
Qed.

(** X11: on every reachable table, List with [showAll] returns the rows in
    the reverse of the order they were added, and without it the active rows
    in that same order. *)
Theorem listing_reverses_insertion (db : Db) :
  reachable db ->
  listing_all db = rev (todos db)
  /\ listing_active db = rev (filter is_active (todos db)).
Proof.
  intros Hreach.
  destruct (reachable_keeps db Hreach) as (_ & Hasc & _).
  rewrite listing_all_eq, listing_active_eq. split.
  - now apply order_by_id_desc_asc.
  - apply order_by_id_desc_asc. now apply asc_by_id_filter.
Qed.

Lemma listing_reverses_insertion_witness :
  listing_all (after (add_todo "eggs") db_milk_deleted)
  = [mkTodo 2 "eggs" active; mkTodo 1 "buy milk" deleted].
Proof.
  destruct (listing_reverses_insertion
              (after (add_todo "eggs") db_milk_deleted)) as [H _].
  - repeat apply reach_call. apply reach_empty.
  - rewrite H. reflexivity.
Defined.

(** * Looking a row up by the id a listing prints *)

Lemma filter_id_unique (l : list Todo) (r : Todo) :
  NoDup (map id l) -> In r l -> filter (fun x => id x =? id r) l = [r].
Proof.
  induction l as [|x l IH]; simpl; intros Hnd Hin; [contradiction|].
  inversion Hnd as [|? ? Hnotin Hnd']; subst.
  destruct Hin as [->|Hin].
  - rewrite Z.eqb_refl. f_equal. now apply filter_id_absent.
  - destruct (id x =? id r) eqn:E.
    + apply Z.eqb_eq in E. exfalso. apply Hnotin. rewrite E.
      now apply in_map.
    + now apply IH.
Qed.

(** X12: on every reachable table and for every row of it, active or
    deleted, Search with the id as a listing prints it returns that row and
    no other, and answers with the line of that row. *)
Theorem search_by_printed_id (db : Db) (r : Todo) :
  reachable db ->
  In r (todos db) ->
  searchTodo_res (Js.toString (id r)) db = (db, Ok (mkResult [r] 1))
  /\ snd (searchTodo (Js.toString (id r)) db) = Ok (line r).
Proof.
  intros Hreach Hin.
  destruct (reachable_keeps db Hreach) as ((Hnd & Hids & _) & _ & Hseq).
  rewrite Forall_forall in Hids. specialize (Hids r Hin).
  assert (E : searchTodo_res (Js.toString (id r)) db
              = (db, Ok (mkResult [r] 1))).
  { unfold searchTodo_res. rewrite parseInt_toString by lia.
    rewrite select_by_id_eq.
    replace (int4_min <=? id r) with true
      by (symmetry; apply Z.leb_le; unfold int4_min; lia).
    replace (id r <=? int4_max) with true by (symmetry; apply Z.leb_le; lia).
    cbn [andb]. now rewrite filter_id_unique. }
  split; [exact E|]. unfold searchTodo, reply. now rewrite E.
Qed.

Lemma search_by_printed_id_witness :
  snd (searchTodo "1" db_milk_deleted) = Ok "#1 - buy milk [deleted]".
Proof.
  apply (search_by_printed_id db_milk_deleted (mkTodo 1 "buy milk" deleted)).
  - repeat apply reach_call. apply reach_empty.
  - now left.
Defined.

(** X13: a query that reads as a number below 1, or at or above the next
    value of the sequence, finds nothing on a table whose primary key
    holds: no row carries such an id. *)
Theorem search_outside_ids (q : string) (n : Z) (db : Db) :
  pk_ok db ->
  Js.parseInt q = Some n ->
  n < 1 \/ todos_id_seq db <= n ->
  rows_of (searchTodo_res q db) = []
  /\ (int4_min <= n <= int4_max ->
      snd (searchTodo q db) = Ok "No todos found.").
Proof.
  intros (_ & Hids & _) Hq Hn.
  assert (Hnone : filter (fun r => id r =? n) (todos db) = []).
  { apply filter_none. intros r Hr. rewrite Forall_forall in Hids.
    specialize (Hids r Hr). apply Z.eqb_neq. lia. }
  unfold searchTodo, reply, searchTodo_res. rewrite Hq.
  rewrite rows_of_select_by_id, select_by_id_eq, Hnone. split.
  - now destruct (_ && _).
  - intros [Hlo Hhi]. apply Z.leb_le in Hlo, Hhi. now rewrite Hlo, Hhi.
Qed.

Lemma search_outside_ids_witness :
  snd (searchTodo "-1" db_milk) = Ok "No todos found.".
Proof.
  apply (search_outside_ids "-1" (-1) db_milk).
  - change db_milk with (mkDb [mkTodo 1 "buy milk" active] 2).
    unfold pk_ok. cbn [todos todos_id_seq map id].
    split; [|split; [|lia]]; repeat constructor; simpl; try tauto; lia.
  - reflexivity.
  - left. lia.
  - unfold int4_min, int4_max. lia.
Defined.

(** * Which queries are numbers *)

Lemma stripPrefix_no_0x (s : string) :
  starts_with "0x" s = false -> starts_with "0X" s = false ->
  fst (Js.stripPrefix s) = 10.
Proof.
  destruct s as [|c0 [|c1 s]]; try reflexivity.
  cbn [starts_with Js.stripPrefix]. rewrite !andb_true_r. intros Hx HX.
  rewrite (Ascii.eqb_sym c0), (Ascii.eqb_sym c1 "x"), (Ascii.eqb_sym c1 "X").
  destruct ("0" =? c0)%char; [|reflexivity]. cbn [andb] in *.
  now rewrite Hx, HX.
Qed.

(** X14: a query that begins with decimal digits, goes on with something
    that is not a digit, and does not begin with [0x] or [0X], is looked up
    by the id the digits write; the rest of the query plays no part.  The
    number [parseInt] returns is the one the digits write as long as that
    is at most 2^53. *)
Theorem search_digits_then_text (ds rest : string) (db : Db) :
  purely_numeric ds = true ->
  starts_with_digit rest = false ->
  starts_with "0x" (ds ++ rest) = false ->
  starts_with "0X" (ds ++ rest) = false ->
  (decimal ds <= max_safe -> Js.parseInt (ds ++ rest) = Some (decimal ds))
  /\ searchTodo_res (ds ++ rest) db = select_by_id (decimal ds) db.
Proof.
  intros Hds Hrest Hx HX.
  assert (E : Js.parseInt (ds ++ rest) = Some (decimal ds)).
  { apply parseInt_digits_then; [assumption | assumption|].
    now apply stripPrefix_no_0x. }
  split; [intros _; exact E|]. unfold searchTodo_res. now rewrite E.
Qed.

Lemma search_digits_then_text_witness :
  Js.parseInt "12 Main St" = Some 12
  /\ searchTodo_res "12 Main St" db_milk = select_by_id 12 db_milk.
Proof.
  destruct (search_digits_then_text "12" " Main St" db_milk
              eq_refl eq_refl eq_refl eq_refl) as [H1 H2].
  split; [apply H1; vm_compute; discriminate | exact H2].
Defined.

(** X15: a query that begins with [0x] or [0X] and does not go on with a
    digit of base 16 is not a number, although it begins with a digit:
    Search takes it as a keyword. *)
Theorem search_0x_is_keyword (rest : string) (db : Db) :
  starts_with_hex_digit rest = false ->
  searchTodo_res ("0x" ++ rest) db = select_active_like ("0x" ++ rest) db
  /\ searchTodo_res ("0X" ++ rest) db = select_active_like ("0X" ++ rest) db.
Proof.
  intros H.
  assert (E : Js.digitsPrefix 16 rest = []).
  { destruct rest as [|c rest]; [reflexivity|]. simpl in *.
    now destruct (Js.radixDigit 16 c). }
  unfold searchTodo_res, Js.parseInt. simpl. now rewrite E.
Qed.

Lemma search_0x_is_keyword_witness :
  searchTodo_res "0x milk" db_milk = select_active_like "0x milk" db_milk.
Proof.
  apply (search_0x_is_keyword " milk" db_milk). reflexivity.
Defined.

(** * Delete, then Search *)

(** X16: right after Delete with a keyword that is not a number and holds
    no character of code 0, Search with the same keyword finds nothing:
    every row that matches is deleted. *)
Theorem delete_then_search_none (k : string) (db : Db) :
  Js.parseInt k = None ->
  has_nul k = false ->
  rows_of (searchTodo_res k (after (delete_todo k) db)) = []
  /\ snd (searchTodo k (after (delete_todo k) db)) = Ok "No todos found.".
Proof.
  intros Hk Hnul.
  assert (Hnone : filter (active_matching k)
                    (todos (after (delete_todo k) db)) = []).
  { apply filter_none. intros r Hr. rewrite after_delete in Hr.
    cbn [todos] in Hr. apply in_map_iff in Hr as (r0 & <- & _).
    unfold active_matching. rewrite matching_mark. unfold mark.
    destruct (matching k r0) eqn:E; [|reflexivity].
    unfold is_active. cbn [set_status status status_eqb].
    apply andb_false_r. }
  unfold searchTodo, reply, searchTodo_res. rewrite Hk.
  rewrite (select_active_like_eq k _ Hnul), Hnone. split; reflexivity.
Qed.

Lemma delete_then_search_none_witness :
  snd (searchTodo "milk" (after (delete_todo "milk") db_milk))
  = Ok "No todos found.".
Proof.
  apply (delete_then_search_none "milk" db_milk); reflexivity.
Defined.

(** * Where contents come from *)

Lemma content_after (c : Call) (db : Db) (r : Todo) :
  In r (todos (after c db)) ->
  (exists r0, In r0 (todos db) /\ content r0 = content r)
  \/ c = add_todo (content r).
Proof.
  destruct c as [c|k|q|k|b].
  - rewrite after_add. unfold addTodo_res, textin, nextval.
    destruct (has_nul c); cbn [fst]; [eauto|].
    destruct (todos_id_seq db <=? int4_max); cbn [fst todos todos_id_seq];
      [|eauto].
    destruct (existsb _ _); cbn [fst todos]; [eauto|].
    intros H. apply in_app_or in H as [H|[<-|[]]]; [eauto|]. now right.
  - rewrite after_delete. cbn [todos]. intros H.
    apply in_map_iff in H as (r0 & <- & H0). left. exists r0.
    split; [exact H0 | apply mark_same_row].
  - rewrite after_search. eauto.
  - rewrite after_restore. cbn [todos]. intros H.
    apply in_map_iff in H as (r0 & <- & H0). left. exists r0.
    split; [exact H0 | apply mark_same_row].
  - rewrite after_read. eauto.
Qed.

Lemma content_after_all (cs : list Call) (db : Db) (r : Todo) :
  In r (todos (after_all cs db)) ->
  (exists r0, In r0 (todos db) /\ content r0 = content r)
  \/ In (add_todo (content r)) cs.
Proof.
  revert db. induction cs as [|c cs IH]; intros db; cbn [after_all fold_left].
  - eauto.
  - intros H. destruct (IH _ H) as [(r1 & H1 & E1) | Hcs].
    + destruct (content_after c db r1 H1) as [(r0 & H0 & E0) | ->].
      * left. exists r0. split; [exact H0 | congruence].
      * right. left. now rewrite E1.
    + right. now right.
Qed.

(** X17: whatever calls were made since the fresh table, the content of
    every row is, unchanged, the argument of one of the Add calls: no other
    tool creates a row or writes a content. *)
Theorem contents_come_from_add (cs : list Call) (r : Todo) :
  In r (todos (after_all cs empty_db)) -> In (add_todo (content r)) cs.
Proof.
  intros H. destruct (content_after_all cs empty_db r H) as [(r0 & [] & _)|H'].
  exact H'.
Qed.

Lemma contents_come_from_add_witness :
  In (add_todo "buy milk") [add_todo "buy milk"; delete_todo "milk"].
Proof.
  apply (contents_come_from_add [add_todo "buy milk"; delete_todo "milk"]
           (mkTodo 1 "buy milk" deleted)).
  now left.
Defined.

(** * The chat loop *)

Lemma after_all_app (cs1 cs2 : list Call) (db : Db) :
  after_all (cs1 ++ cs2) db = after_all cs2 (after_all cs1 db).
Proof. apply fold_left_app. Qed.

Lemma reachable_after_all (cs : list Call) (db : Db) :
  reachable db -> reachable (after_all cs db).
Proof.
  revert db. induction cs as [|c cs IH]; intros db H; [exact H|].
  cbn [after_all fold_left]. apply IH. now apply reach_call.
Qed.

(** A run of the agent comes down to a sequence of tool calls. *)
Lemma invoke_agent_calls (a : Agent) (db : Db) :
  exists cs, fst (invoke_agent a db) = after_all cs db.
Proof.
  revert db. induction a as [text| |c next IH]; intros db.
  - now exists [].
  - now exists [].
  - cbn [invoke_agent]. destruct (invoke c db) as [db' r] eqn:E.
    destruct (IH r db') as (cs & Hcs). exists (c :: cs).
    cbn [after_all fold_left]. unfold after. now rewrite E.
Qed.

Lemma turns_from_calls (turns : list (string * Agent)) (db : Db) :
  exists cs, db_of (turns_from turns db) = after_all cs db.
Proof.
  revert db. induction turns as [|[userInput a] rest IH]; intros db.
  - now exists [].
  - cbn [turns_from]. destruct (is_exit userInput); [now exists []|].
    destruct (invoke_agent_calls a db) as (cs1 & H1).
    destruct (invoke_agent a db) as [db' r]. cbn [fst] in H1.
    destruct (IH db') as (cs2 & H2).
    destruct (turns_from rest db') as [[out db''] gone].
    exists (cs1 ++ cs2)%list. rewrite after_all_app, <- H1. exact H2.
Qed.

Lemma db_of_chatLoop (turns : list (string * Agent)) (db : Db) :
  db_of (chatLoop turns db) = db_of (turns_from turns db).
Proof.
  unfold chatLoop. now destruct (turns_from turns db) as [[out db'] gone].
Qed.

(** X18: whatever is typed and whatever the agent does with the tools, a
    chat session started on a reachable table ends on a reachable table,
    and every row the table held is still there, at its place, with its id
    and content. *)
Theorem session_keeps_rows (turns : list (string * Agent)) (db : Db) :
  reachable db ->
  reachable (db_of (chatLoop turns db))
  /\ exists kept added : list Todo,
       todos (db_of (chatLoop turns db)) = (kept ++ added)%list
       /\ Forall2 same_row (todos db) kept.
Proof.
  intros Hreach. rewrite db_of_chatLoop.
  destruct (turns_from_calls turns db) as (cs & ->). split.
  - now apply reachable_after_all.
  - apply rows_persist_all.
Qed.

Lemma session_keeps_rows_witness :
  reachable
    (db_of (chatLoop
              [("delete everything",
                use (delete_todo "") (fun _ => answer "Done."))]
              db_milk)).
Proof.
  apply (session_keeps_rows
           [("delete everything",
             use (delete_todo "") (fun _ => answer "Done."))] db_milk).
  apply reach_call. apply reach_empty.
Defined.

Lemma turns_from_exit (pre post : list (string * Agent)) (userInput : string)
      (a : Agent) (db : Db) :
  Forall (fun t => is_exit (fst t) = false) pre ->
  is_exit userInput = true ->
  turns_from (pre ++ (userInput, a) :: post) db
  = ((printed (turns_from pre db) ++ [goodbye])%list,
     db_of (turns_from pre db), true).
Proof.
  intros Hpre Hexit. revert db.
  induction Hpre as [|[u a0] pre Hu _ IH]; intros db.
  - cbn [app turns_from]. now rewrite Hexit.
  - cbn [app turns_from]. cbn [fst] in Hu. rewrite Hu.
    destruct (invoke_agent a0 db) as [db' r]. rewrite IH.
    unfold printed, db_of.
    now destruct (turns_from pre db') as [[out db''] gone].
Qed.

(** X19: the loop is left at the first line that reads [exit] in any letter
    case: what was typed before is handled as if nothing followed, then
    Goodbye is printed; nothing typed after that line is handled, and the
    database stays as the lines before it left it. *)
Theorem chat_stops_at_exit (pre post : list (string * Agent))
        (userInput : string) (a : Agent) (db : Db) :
  Forall (fun t => is_exit (fst t) = false) pre ->
  is_exit userInput = true ->
  chatLoop (pre ++ (userInput, a) :: post) db
  = ((printed (chatLoop pre db) ++ [goodbye])%list,
     db_of (chatLoop pre db), true).
Proof.
  intros Hpre Hexit. unfold chatLoop.
  rewrite (turns_from_exit pre post userInput a db Hpre Hexit).
  unfold printed, db_of.
  now destruct (turns_from pre db) as [[out db'] gone].
Qed.

Lemma chat_stops_at_exit_witness :
  chatLoop [("add milk", use (add_todo "milk") (fun _ => answer "Added."));
            ("Exit", answer "never");
            ("delete milk", use (delete_todo "milk") (fun _ => throws))]
           empty_db
  = ([welcome; bot "Added."; goodbye],
     mkDb [mkTodo 1 "milk" active] 2, true).
Proof.
  apply (chat_stops_at_exit
           [("add milk", use (add_todo "milk") (fun _ => answer "Added."))]
           [("delete milk", use (delete_todo "milk") (fun _ => throws))]
           "Exit" (answer "never") empty_db).
  - constructor; [reflexivity | constructor].
  - reflexivity.
Defined.

(** * Restore, for every keyword *)



(** * Add, then List *)

(** X21: on a reachable table whose sequence is not used up, the row that an
    Add creates for a content without the character of code 0 is the first
    row of both listings, ahead of what they held. *)
Theorem added_row_listed_first (c : string) (db : Db) :
  has_nul c = false ->
  reachable db ->
  todos_id_seq db <= int4_max ->
  listing_all (after (add_todo c) db)
  = mkTodo (todos_id_seq db) c active :: listing_all db
  /\ listing_active (after (add_todo c) db)
     = mkTodo (todos_id_seq db) c active :: listing_active db.
Proof.
  intros Hc Hreach Hseq.
  assert (Hreach' : reachable (after (add_todo c) db))
    by now apply reach_call.
  destruct (reachable_keeps _ Hreach) as (Hpk & Hasc & _).
  destruct (reachable_keeps _ Hreach') as (_ & Hasc' & _).
  rewrite !listing_all_eq, !listing_active_eq.
  rewrite !order_by_id_desc_asc
    by (try apply asc_by_id_filter; assumption).
  rewrite after_add, addTodo_res_eq by assumption. cbn [fst todos].
  rewrite filter_app. cbn [filter is_active status status_eqb].
  now rewrite !rev_unit.
Qed.

Lemma added_row_listed_first_witness :
  listing_all (after (add_todo "eggs") db_milk)
  = [mkTodo 2 "eggs" active; mkTodo 1 "buy milk" active].
Proof.
  destruct (added_row_listed_first "eggs" db_milk) as [H _].
  - reflexivity.
  - apply reach_call. apply reach_empty.
  - vm_compute. discriminate.
  - rewrite H. reflexivity.
Defined.

(** * Case beyond A..Z *)

(** The accented capital of code 201 and its small letter of code 233 are
    the same up to case: a keyword with the one finds a content with the
    other, in both directions. *)
Example accented_capital_matches :
  keyword_ilike (String (ascii_of_nat 233) "cole")
                (String (ascii_of_nat 201) "cole") = Ok true
  /\ keyword_ilike (String (ascii_of_nat 201) "COLE")
                   (String (ascii_of_nat 233) "cole") = Ok true
  /\ ci_contains (String (ascii_of_nat 233) "cole")
                 (String (ascii_of_nat 201) "cole") = true.
Proof. repeat split; vm_compute; reflexivity. Qed.
